(** * go-yeelight: the command/response exchange of a Yeelight bulb session

    A shallow embedding of [yeelight.go] together with the parts of the Go
    standard library it calls ([encoding/json], [unicode/utf8], [net],
    [strings]), followed by the properties of the session proved on it.

    Conventions of the embedding:
    - a Go [string] / [[]byte] is a Rocq [string] (a sequence of 8-bit
      characters), a byte value is the [N] given by [N_of_ascii];
    - a Go [int] is a [Z] kept in the signed 64-bit range, arithmetic wraps
      ([GoInt.wrap]);
    - a [net.Conn] is a record holding the bytes written so far and a script
      of what the following [Write] and [Read] calls return;
    - a function returning [error] returns [option error] ([None] is [nil]),
      a function returning [(T, error)] returns [result T]. *)

From Stdlib Require Import ZArith NArith List String Ascii Bool Lia.
From Stdlib Require Import DecimalString.
From Stdlib Require DecimalPos DecimalFacts.
Import ListNotations.

Open Scope list_scope.
Open Scope string_scope.
Open Scope Z_scope.

(* ================================================================= *)
(** ** Byte strings *)

Definition byte_of (n : N) : ascii := ascii_of_N n.

(** The characters that cannot be written inside a string literal. *)
Definition QUOTE : string := String (byte_of 34) "".
Definition LF : string := String (byte_of 10) "".
Definition CR : string := String (byte_of 13) "".
Definition CRLF : string := CR ++ LF.
Definition BACKSLASH : string := String (byte_of 92) "".

Fixpoint drop (n : nat) (s : string) : string :=
  match n, s with
  | O, _ => s
  | S _, EmptyString => EmptyString
  | S n', String _ s' => drop n' s'
  end.

Definition take (n : nat) (s : string) : string := substring 0 n s.

(* ================================================================= *)
(** ** Errors *)

(** The [error] values the program can meet.  [Errorf] is
    [fmt.Errorf(format, err)] with a format ending in [%+v]: it keeps the
    message prefix and the error it wraps. *)
Inductive error : Type :=
| UnsupportedTypeError              (* json: unsupported type *)
| SyntaxError                       (* json: invalid character, ... *)
| UnmarshalTypeError                (* json: cannot unmarshal ... into ... *)
| EOF                               (* io.EOF *)
| ErrUnexpectedEOF                  (* io.ErrUnexpectedEOF *)
| OpError                           (* net.OpError: the transport failed *)
| AddrError (why : string)          (* net.AddrError *)
| Errorf (format : string) (e : error).

Inductive result (A : Type) : Type :=
| Ok (a : A)
| Err (e : error).
Arguments Ok {A} a.
Arguments Err {A} e.

(* ================================================================= *)
(** ** Go's [int] on a 64-bit platform *)

Module GoInt.

Definition min_int : Z := - 2 ^ 63.
Definition max_int : Z := 2 ^ 63 - 1.

Definition in_range (z : Z) : Prop := min_int <= z <= max_int.

(** Two's-complement reduction of a mathematical integer to 64 bits. *)
Definition wrap (z : Z) : Z := (z + 2 ^ 63) mod 2 ^ 64 - 2 ^ 63.

Definition add (a b : Z) : Z := wrap (a + b).
Definition shl (a : Z) (n : Z) : Z := wrap (Z.shiftl a n).
Definition or (a b : Z) : Z := Z.lor a b.

(** [strconv.AppendInt(dst, v, 10)]. *)
Definition format (z : Z) : string := NilEmpty.string_of_int (Z.to_int z).

End GoInt.

(* ================================================================= *)
(** ** [strings] *)

Module strings.

(** [strings.IndexByte(s, c)], [None] standing for -1. *)
Fixpoint IndexByte (s : string) (c : ascii) : option nat :=
  match s with
  | EmptyString => None
  | String a s' =>
      if Ascii.eqb a c then Some O
      else match IndexByte s' c with
           | Some i => Some (S i)
           | None => None
           end
  end.

(** [strings.LastIndexByte(s, c)]. *)
Fixpoint LastIndexByte (s : string) (c : ascii) : option nat :=
  match s with
  | EmptyString => None
  | String a s' =>
      match LastIndexByte s' c with
      | Some i => Some (S i)
      | None => if Ascii.eqb a c then Some O else None
      end
  end.

(** [strings.Contains(s, substr)]: [substr] occurs somewhere in [s]. *)
Fixpoint Contains (s substr : string) : bool :=
  prefix substr s ||
  match s with
  | EmptyString => false
  | String _ s' => Contains s' substr
  end.

End strings.

(* ================================================================= *)
(** ** [unicode/utf8] and [unicode/utf16] *)

Module utf8.

Open Scope N_scope.

Definition RuneError : N := 0xFFFD.
Definition RuneSelf : N := 0x80.

(** The table [first] joined with [acceptRanges]: for a leading byte, the
    length of the encoding and the inclusive range allowed for the second
    byte; [None] for a byte that cannot start a multi-byte encoding. *)
Definition first (p0 : N) : option (nat * N * N) :=
  if p0 <? 0xC2 then None
  else if p0 <? 0xE0 then Some (2%nat, 0x80, 0xBF)
  else if p0 =? 0xE0 then Some (3%nat, 0xA0, 0xBF)
  else if p0 <? 0xED then Some (3%nat, 0x80, 0xBF)
  else if p0 =? 0xED then Some (3%nat, 0x80, 0x9F)
  else if p0 <? 0xF0 then Some (3%nat, 0x80, 0xBF)
  else if p0 =? 0xF0 then Some (4%nat, 0x90, 0xBF)
  else if p0 <? 0xF4 then Some (4%nat, 0x80, 0xBF)
  else if p0 =? 0xF4 then Some (4%nat, 0x80, 0x8F)
  else None.

Definition continuation (b : N) : bool := (0x80 <=? b) && (b <=? 0xBF).

(** [utf8.DecodeRune]: the first rune of [p] and the number of bytes it
    takes; [(RuneError, 1)] on an invalid encoding, [(RuneError, 0)] on the
    empty string. *)
Definition DecodeRune (p : string) : N * nat :=
  match p with
  | EmptyString => (RuneError, 0%nat)
  | String c0 t0 =>
    let p0 := N_of_ascii c0 in
    if p0 <? RuneSelf then (p0, 1%nat) else
    match first p0, t0 with
    | Some (sz, lo, hi), String c1 t1 =>
      let b1 := N_of_ascii c1 in
      if (b1 <? lo) || (hi <? b1) then (RuneError, 1%nat) else
      match sz, t1 with
      | 2%nat, _ =>
          (N.lor (N.shiftl (N.land p0 0x1F) 6) (N.land b1 0x3F), 2%nat)
      | _, String c2 t2 =>
        let b2 := N_of_ascii c2 in
        if negb (continuation b2) then (RuneError, 1%nat) else
        match sz, t2 with
        | 3%nat, _ =>
            (N.lor (N.shiftl (N.land p0 0x0F) 12)
               (N.lor (N.shiftl (N.land b1 0x3F) 6) (N.land b2 0x3F)), 3%nat)
        | _, String c3 _ =>
          let b3 := N_of_ascii c3 in
          if negb (continuation b3) then (RuneError, 1%nat) else
          (N.lor (N.shiftl (N.land p0 0x07) 18)
             (N.lor (N.shiftl (N.land b1 0x3F) 12)
                (N.lor (N.shiftl (N.land b2 0x3F) 6) (N.land b3 0x3F))), 4%nat)
        | _, EmptyString => (RuneError, 1%nat)
        end
      | _, EmptyString => (RuneError, 1%nat)
      end
    | _, _ => (RuneError, 1%nat)
    end
  end.

Definition cont_byte (r : N) (shift : N) : string :=
  String (byte_of (N.lor 0x80 (N.land (N.shiftr r shift) 0x3F))) "".

(** [utf8.EncodeRune]; surrogates and values past U+10FFFF are written as
    U+FFFD. *)
Definition EncodeRune (r : N) : string :=
  if r <? 0x80 then String (byte_of r) ""
  else if r <? 0x800 then
    String (byte_of (N.lor 0xC0 (N.shiftr r 6))) "" ++ cont_byte r 0
  else if ((0xD800 <=? r) && (r <=? 0xDFFF)) || (0x10FFFF <? r) then
    String (byte_of 0xEF) (String (byte_of 0xBF) (String (byte_of 0xBD) ""))
  else if r <? 0x10000 then
    String (byte_of (N.lor 0xE0 (N.shiftr r 12))) ""
      ++ cont_byte r 6 ++ cont_byte r 0
  else
    String (byte_of (N.lor 0xF0 (N.shiftr r 18))) ""
      ++ cont_byte r 12 ++ cont_byte r 6 ++ cont_byte r 0.

End utf8.

Module utf16.

Open Scope N_scope.

Definition IsSurrogate (r : N) : bool := (0xD800 <=? r) && (r <? 0xE000).

(** [utf16.DecodeRune(r1, r2)], the second argument being [None] when no
    second escape follows. *)
Definition DecodeRune (r1 : N) (r2 : option N) : N :=
  match r2 with
  | Some r2 =>
      if (0xD800 <=? r1) && (r1 <? 0xDC00) && (0xDC00 <=? r2) && (r2 <? 0xE000)
      then N.lor (N.shiftl (r1 - 0xD800) 10) (r2 - 0xDC00) + 0x10000
      else utf8.RuneError
  | None => utf8.RuneError
  end.

End utf16.

(* ================================================================= *)
(** ** [encoding/json]: encoding *)

(** A Go value passed as [interface{}].  [VChan] stands for the values
    that [encoding/json] refuses to encode (channels, functions, complex
    numbers). *)
Inductive value : Type :=
| VInt (n : Z)
| VStr (s : string)
| VBool (b : bool)
| VNil
| VChan.

Module jsonenc.

Open Scope N_scope.

Definition hex : string := "0123456789abcdef".

Definition hexdigit (n : N) : string :=
  match get (N.to_nat n) hex with
  | Some c => String c ""
  | None => ""
  end.

(** [htmlSafeSet]: the ASCII bytes copied as they are when HTML escaping
    is on, which is the default of an [Encoder]. *)
Definition htmlSafe (b : N) : bool :=
  (0x20 <=? b) && negb (b =? 0x22) && negb (b =? 0x26) && negb (b =? 0x3C)
  && negb (b =? 0x3E) && negb (b =? 0x5C).

(** The escape written for an ASCII byte outside [htmlSafeSet]. *)
Definition escape (b : N) : string :=
  BACKSLASH ++
  (if (b =? 0x5C) || (b =? 0x22) then String (byte_of b) ""
   else if b =? 0x08 then "b"
   else if b =? 0x0C then "f"
   else if b =? 0x0A then "n"
   else if b =? 0x0D then "r"
   else if b =? 0x09 then "t"
   else "u00" ++ hexdigit (N.shiftr b 4) ++ hexdigit (N.land b 0xF)).

(** The body of [appendString], between the quotes.  Every round consumes
    at least one byte of [src], so [length src] rounds are enough. *)
Fixpoint appendString_loop (fuel : nat) (src : string) : string :=
  match fuel, src with
  | S fuel', String c rest =>
      let b := N_of_ascii c in
      if b <? utf8.RuneSelf then
        if htmlSafe b then String c (appendString_loop fuel' rest)
        else escape b ++ appendString_loop fuel' rest
      else
        let '(r, size) := utf8.DecodeRune src in
        if (r =? utf8.RuneError) && (size =? 1)%nat then
          BACKSLASH ++ "ufffd" ++ appendString_loop fuel' rest
        else if (r =? 0x2028) || (r =? 0x2029) then
          BACKSLASH ++ "u202" ++ hexdigit (N.land r 0xF)
            ++ appendString_loop fuel' (drop size src)
        else
          take size src ++ appendString_loop fuel' (drop size src)
  | _, _ => ""
  end.

Definition appendString (src : string) : string :=
  QUOTE ++ appendString_loop (length src) src ++ QUOTE.

(** The encoder chosen by the dynamic type of an [interface{}] value. *)
Definition encodeValue (v : value) : result string :=
  match v with
  | VInt n => Ok (GoInt.format n)
  | VStr s => Ok (appendString s)
  | VBool true => Ok "true"
  | VBool false => Ok "false"
  | VNil => Ok "null"
  | VChan => Err UnsupportedTypeError
  end.

(** The elements of an array, each preceded by a comma but the first. *)
Fixpoint encodeElems (first : bool) (l : list value) : result string :=
  match l with
  | [] => Ok ""
  | v :: l' =>
      match encodeValue v with
      | Err e => Err e
      | Ok t =>
          match encodeElems false l' with
          | Err e => Err e
          | Ok ts => Ok ((if first then "" else ",") ++ t ++ ts)
          end
      end
  end.

(** A [[]interface{}]: [None] is the nil slice, written [null]. *)
Definition encodeSlice (s : option (list value)) : result string :=
  match s with
  | None => Ok "null"
  | Some l =>
      match encodeElems true l with
      | Err e => Err e
      | Ok ts => Ok ("[" ++ ts ++ "]")
      end
  end.

End jsonenc.

(* ================================================================= *)
(** ** [encoding/json]: the scanner *)

Module scanner.

Notation "c =c k" := (Ascii.eqb c k%char) (at level 70, no associativity).

(** What the scanner is inside of ([parseObjectKey], ...). *)
Inductive parse_state : Type :=
| parseObjectKey
| parseObjectValue
| parseArrayValue.

(** What a step reports ([scanContinue], ...). *)
Inductive opcode : Type :=
| scanContinue | scanBeginLiteral | scanBeginObject | scanObjectKey
| scanObjectValue | scanEndObject | scanBeginArray | scanArrayValue
| scanEndArray | scanSkipSpace | scanEnd | scanError.

(** The step function currently installed in the scanner: constructor
    [SX] names the Go function [stateX]. *)
Inductive state : Type :=
| SBeginValueOrEmpty | SBeginValue | SBeginStringOrEmpty | SBeginString
| SEndValue | SEndTop | SInString | SInStringEsc | SInStringEscU
| SInStringEscU1 | SInStringEscU12 | SInStringEscU123
| SNeg | S1 | S0 | SDot | SDot0 | SE | SESign | SE0
| ST | STr | STru | SF | SFa | SFal | SFals | SN | SNu | SNul
| SError.

(** The stack [parseState] has its top first. *)
Record t : Type := mk {
  step : state;
  parseState : list parse_state;
  endTop : bool;
  err : bool
}.

Definition maxNestingDepth : N := 10000.

(** [scanner.reset]. *)
Definition reset : t :=
  {| step := SBeginValue; parseState := []; endTop := false; err := false |}.

Definition with_step (s : t) (st : state) : t :=
  {| step := st; parseState := parseState s; endTop := endTop s;
     err := err s |}.

Definition with_stack (s : t) (st : state) (ps : list parse_state) : t :=
  {| step := st; parseState := ps; endTop := endTop s; err := err s |}.

(** [scanner.error]: remember the syntax error and stop. *)
Definition fail (s : t) : opcode * t :=
  (scanError,
   {| step := SError; parseState := parseState s; endTop := endTop s;
      err := true |}).

(** [scanner.pushParseState], called once the next step is installed. *)
Definition pushParseState (s : t) (newParseState : parse_state)
    (successState : opcode) : opcode * t :=
  let s' := with_stack s (step s) (newParseState :: parseState s) in
  if (N.of_nat (List.length (parseState s')) <=? maxNestingDepth)%N
  then (successState, s')
  else fail s'.

(** [scanner.popParseState]. *)
Definition popParseState (s : t) : t :=
  match tl (parseState s) with
  | [] => {| step := SEndTop; parseState := []; endTop := true;
             err := err s |}
  | rest => with_stack s SEndValue rest
  end.

Definition isSpace (c : ascii) : bool :=
  (c =c " ") || Ascii.eqb c (byte_of 9) || Ascii.eqb c (byte_of 13)
  || Ascii.eqb c (byte_of 10).

Definition isDigit (c : ascii) : bool :=
  (N_of_ascii "0" <=? N_of_ascii c)%N && (N_of_ascii c <=? N_of_ascii "9")%N.

Definition isDigit19 (c : ascii) : bool :=
  (N_of_ascii "1" <=? N_of_ascii c)%N && (N_of_ascii c <=? N_of_ascii "9")%N.

Definition isHex (c : ascii) : bool :=
  isDigit c
  || ((N_of_ascii "a" <=? N_of_ascii c)%N && (N_of_ascii c <=? N_of_ascii "f")%N)
  || ((N_of_ascii "A" <=? N_of_ascii c)%N && (N_of_ascii c <=? N_of_ascii "F")%N).

Definition stateEndTop (s : t) (c : ascii) : opcode * t :=
  if isSpace c then (scanEnd, s) else (scanEnd, snd (fail s)).

Definition stateEndValue (s : t) (c : ascii) : opcode * t :=
  match parseState s with
  | [] =>
      stateEndTop {| step := SEndTop; parseState := []; endTop := true;
                     err := err s |} c
  | ps :: rest =>
      if isSpace c then (scanSkipSpace, with_step s SEndValue)
      else
        match ps with
        | parseObjectKey =>
            if c =c ":" then
              (scanObjectKey, with_stack s SBeginValue (parseObjectValue :: rest))
            else fail s
        | parseObjectValue =>
            if c =c "," then
              (scanObjectValue, with_stack s SBeginString (parseObjectKey :: rest))
            else if c =c "}" then (scanEndObject, popParseState s)
            else fail s
        | parseArrayValue =>
            if c =c "," then (scanArrayValue, with_step s SBeginValue)
            else if c =c "]" then (scanEndArray, popParseState s)
            else fail s
        end
  end.

Definition stateBeginValue (s : t) (c : ascii) : opcode * t :=
  if isSpace c then (scanSkipSpace, s)
  else if c =c "{" then
    pushParseState (with_step s SBeginStringOrEmpty) parseObjectKey scanBeginObject
  else if c =c "[" then
    pushParseState (with_step s SBeginValueOrEmpty) parseArrayValue scanBeginArray
  else if Ascii.eqb c (byte_of 34) then (scanBeginLiteral, with_step s SInString)
  else if c =c "-" then (scanBeginLiteral, with_step s SNeg)
  else if c =c "0" then (scanBeginLiteral, with_step s S0)
  else if c =c "t" then (scanBeginLiteral, with_step s ST)
  else if c =c "f" then (scanBeginLiteral, with_step s SF)
  else if c =c "n" then (scanBeginLiteral, with_step s SN)
  else if isDigit19 c then (scanBeginLiteral, with_step s S1)
  else fail s.

Definition stateBeginValueOrEmpty (s : t) (c : ascii) : opcode * t :=
  if isSpace c then (scanSkipSpace, s)
  else if c =c "]" then stateEndValue s c
  else stateBeginValue s c.

Definition stateBeginString (s : t) (c : ascii) : opcode * t :=
  if isSpace c then (scanSkipSpace, s)
  else if Ascii.eqb c (byte_of 34) then (scanBeginLiteral, with_step s SInString)
  else fail s.

Definition stateBeginStringOrEmpty (s : t) (c : ascii) : opcode * t :=
  if isSpace c then (scanSkipSpace, s)
  else if c =c "}" then
    stateEndValue (with_stack s (step s) (parseObjectValue :: tl (parseState s))) c
  else stateBeginString s c.

Definition stateInString (s : t) (c : ascii) : opcode * t :=
  if Ascii.eqb c (byte_of 34) then (scanContinue, with_step s SEndValue)
  else if Ascii.eqb c (byte_of 92) then (scanContinue, with_step s SInStringEsc)
  else if (N_of_ascii c <? 0x20)%N then fail s
  else (scanContinue, s).

Definition stateInStringEsc (s : t) (c : ascii) : opcode * t :=
  if (c =c "b") || (c =c "f") || (c =c "n") || (c =c "r") || (c =c "t")
     || Ascii.eqb c (byte_of 92) || (c =c "/") || Ascii.eqb c (byte_of 34)
  then (scanContinue, with_step s SInString)
  else if c =c "u" then (scanContinue, with_step s SInStringEscU)
  else fail s.

(** [stateInStringEscU], [...U1], [...U12] and [...U123]: one hexadecimal
    digit, then on to [next]. *)
Definition stateInStringHex (next : state) (s : t) (c : ascii) : opcode * t :=
  if isHex c then (scanContinue, with_step s next) else fail s.

Definition stateNeg (s : t) (c : ascii) : opcode * t :=
  if c =c "0" then (scanContinue, with_step s S0)
  else if isDigit19 c then (scanContinue, with_step s S1)
  else fail s.

Definition state0 (s : t) (c : ascii) : opcode * t :=
  if c =c "." then (scanContinue, with_step s SDot)
  else if (c =c "e") || (c =c "E") then (scanContinue, with_step s SE)
  else stateEndValue s c.

Definition state1 (s : t) (c : ascii) : opcode * t :=
  if isDigit c then (scanContinue, with_step s S1) else state0 s c.

Definition stateDot (s : t) (c : ascii) : opcode * t :=
  if isDigit c then (scanContinue, with_step s SDot0) else fail s.

Definition stateDot0 (s : t) (c : ascii) : opcode * t :=
  if isDigit c then (scanContinue, s)
  else if (c =c "e") || (c =c "E") then (scanContinue, with_step s SE)
  else stateEndValue s c.

Definition stateESign (s : t) (c : ascii) : opcode * t :=
  if isDigit c then (scanContinue, with_step s SE0) else fail s.

Definition stateE (s : t) (c : ascii) : opcode * t :=
  if (c =c "+") || (c =c "-") then (scanContinue, with_step s SESign)
  else stateESign s c.

Definition stateE0 (s : t) (c : ascii) : opcode * t :=
  if isDigit c then (scanContinue, s) else stateEndValue s c.

(** [stateT], [stateTr], ...: the next letter of [true], [false] or
    [null], then on to [next]. *)
Definition stateLetter (want : ascii) (next : state) (s : t) (c : ascii)
    : opcode * t :=
  if Ascii.eqb c want then (scanContinue, with_step s next) else fail s.

(** [s.step(s, c)]: run the installed step function on one byte. *)
Definition run (s : t) (c : ascii) : opcode * t :=
  match step s with
  | SBeginValueOrEmpty => stateBeginValueOrEmpty s c
  | SBeginValue => stateBeginValue s c
  | SBeginStringOrEmpty => stateBeginStringOrEmpty s c
  | SBeginString => stateBeginString s c
  | SEndValue => stateEndValue s c
  | SEndTop => stateEndTop s c
  | SInString => stateInString s c
  | SInStringEsc => stateInStringEsc s c
  | SInStringEscU => stateInStringHex SInStringEscU1 s c
  | SInStringEscU1 => stateInStringHex SInStringEscU12 s c
  | SInStringEscU12 => stateInStringHex SInStringEscU123 s c
  | SInStringEscU123 => stateInStringHex SInString s c
  | SNeg => stateNeg s c
  | S1 => state1 s c
  | S0 => state0 s c
  | SDot => stateDot s c
  | SDot0 => stateDot0 s c
  | SE => stateE s c
  | SESign => stateESign s c
  | SE0 => stateE0 s c
  | ST => stateLetter "r" STr s c
  | STr => stateLetter "u" STru s c
  | STru => stateLetter "e" SEndValue s c
  | SF => stateLetter "a" SFa s c
  | SFa => stateLetter "l" SFal s c
  | SFal => stateLetter "s" SFals s c
  | SFals => stateLetter "e" SEndValue s c
  | SN => stateLetter "u" SNu s c
  | SNu => stateLetter "l" SNul s c
  | SNul => stateLetter "l" SEndValue s c
  | SError => (scanError, s)
  end.

End scanner.

(* ================================================================= *)
(** ** [net]: addresses and connections *)

Module net.

Definition missingPort : string := "missing port in address".
Definition tooManyColons : string := "too many colons in address".

Definition has (s : string) (c : ascii) : bool :=
  match strings.IndexByte s c with
  | Some _ => true
  | None => false
  end.

(** [net.SplitHostPort]: splits [host:port], [[host]:port] into host and
    port. *)
Definition SplitHostPort (hostport : string) : result (string * string) :=
  match strings.LastIndexByte hostport ":" with
  | None => Err (AddrError missingPort)
  | Some i =>
      let finish (host : string) (j k : nat) :=
        if has (drop j hostport) "[" then
          Err (AddrError "unexpected '[' in address")
        else if has (drop k hostport) "]" then
          Err (AddrError "unexpected ']' in address")
        else Ok (host, drop (S i) hostport) in
      if prefix "[" hostport then
        match strings.IndexByte hostport "]" with
        | None => Err (AddrError "missing ']' in address")
        | Some end_ =>
            if (S end_ =? length hostport)%nat then Err (AddrError missingPort)
            else if (S end_ =? i)%nat then
              finish (substring 1 (end_ - 1) hostport) 1%nat (S end_)
            else if prefix ":" (drop (S end_) hostport) then
              Err (AddrError tooManyColons)
            else Err (AddrError missingPort)
        end
      else
        let host := take i hostport in
        if has host ":" then Err (AddrError tooManyColons)
        else finish host 0%nat 0%nat
  end.

(** What one call of [Write] does: everything goes out, or the call fails
    after [n] bytes went out. *)
Inductive write_outcome : Type :=
| WriteAll
| WriteFails (n : nat).

(** What one call of [Read] returns: the bytes received and the error
    reported with them. *)
Record read_outcome : Type := mkRead {
  data : string;
  rerr : option error
}.

(** A connected stream socket.  [wire] is everything written to the peer
    so far; [writes] and [reads] say what the following calls of [Write]
    and [Read] do, in order.  Once [writes] is used up every write goes
    through, once [reads] is used up the peer has closed the connection. *)
Record Conn : Type := mkConn {
  wire : string;
  writes : list write_outcome;
  reads : list read_outcome
}.

(** [conn.Write(p)]. *)
Definition Write (c : Conn) (p : string) : option error * Conn :=
  match writes c with
  | [] => (None, {| wire := wire c ++ p; writes := []; reads := reads c |})
  | WriteAll :: ws =>
      (None, {| wire := wire c ++ p; writes := ws; reads := reads c |})
  | WriteFails n :: ws =>
      (Some OpError,
       {| wire := wire c ++ take n p; writes := ws; reads := reads c |})
  end.

(** The world outside the program, as [net.Dial] sees it: the outcome of
    connecting to a host and port. *)
Definition Network : Type := string -> string -> result Conn.

(** [net.Dial("tcp", address)]: the address must split into host and
    port, then the network decides. *)
Definition Dial (world : Network) (address : string) : result Conn :=
  match SplitHostPort address with
  | Err e => Err e
  | Ok (host, port) => world host port
  end.

End net.

(** [fmt.Fprint(w, s)] on a connection: one [Write] of the text. *)
Definition Fprint (w : net.Conn) (s : string) : option error * net.Conn :=
  net.Write w s.

(* ================================================================= *)
(** ** [encoding/json]: reading one value from a stream *)

Module stream.

Import scanner.

(** The scan of the bytes just received, continuing at offset [scanp] of
    the buffer: the value ends (its length is given), the text is not
    JSON, or the bytes ran out. *)
Inductive scan_outcome : Type :=
| ValueEnd (n : nat)
| Invalid
| More (s : scanner.t) (scanp : nat).

(** The inner loop of [Decoder.readValue]. *)
Fixpoint scanBuf (s : scanner.t) (buf : string) (scanp : nat) : scan_outcome :=
  match buf with
  | EmptyString => More s scanp
  | String c rest =>
      let '(op, s1) := run s c in
      match op with
      | scanEnd => ValueEnd scanp
      | scanEndObject | scanEndArray =>
          let '(op2, s2) := stateEndValue s1 " " in
          match op2 with
          | scanEnd => ValueEnd (S scanp)
          | _ => scanBuf s2 rest (S scanp)
          end
      | scanError => Invalid
      | _ => scanBuf s1 rest (S scanp)
      end
  end.

Fixpoint nonSpace (b : string) : bool :=
  match b with
  | EmptyString => false
  | String c b' => negb (isSpace c) || nonSpace b'
  end.

(** [Decoder.readValue] once the last [Read] reported [e] and the buffer
    holds no complete value yet. *)
Definition readError (e : error) (s : scanner.t) (buf : string) : result string :=
  match e with
  | EOF =>
      match fst (run s " ") with
      | scanEnd => Ok buf
      | _ => if nonSpace buf then Err ErrUnexpectedEOF else Err EOF
      end
  | _ => Err e
  end.

(** The outer loop of [Decoder.readValue] on a fresh decoder: refill the
    buffer with one [Read], scan what arrived, and go on until the value is
    complete.  The result is the text of the value, leading space included;
    the bytes read past it stay in the decoder's buffer. *)
Fixpoint readValue (s : scanner.t) (buf : string) (scanp : nat)
    (rs : list net.read_outcome) : result string * list net.read_outcome :=
  match rs with
  | [] => (readError EOF s buf, [])
  | r :: rs' =>
      let buf' := buf ++ net.data r in
      match scanBuf s (net.data r) scanp with
      | ValueEnd n => (Ok (take n buf'), rs')
      | Invalid => (Err SyntaxError, rs')
      | More s' scanp' =>
          match net.rerr r with
          | None => readValue s' buf' scanp' rs'
          | Some e => (readError e s' buf', rs')
          end
      end
  end.

End stream.

(* ================================================================= *)
(** ** [encoding/json]: the value read from the text *)

(** A JSON value as the decoder walks it: numbers keep their literal,
    strings and object keys are unquoted. *)
#[local] Set Warnings "-register-all".
Inductive json : Type :=
| JNull
| JBool (b : bool)
| JNumber (lit : string)
| JString (s : string)
| JArray (elems : list json)
| JObject (members : list (string * json)).

Module decode.

Import scanner.

Open Scope N_scope.

Definition hexval (c : ascii) : option N :=
  let b := N_of_ascii c in
  if isDigit c then Some (b - N_of_ascii "0")
  else if (N_of_ascii "a" <=? b) && (b <=? N_of_ascii "f")
  then Some (b - N_of_ascii "a" + 10)
  else if (N_of_ascii "A" <=? b) && (b <=? N_of_ascii "F")
  then Some (b - N_of_ascii "A" + 10)
  else None.

(** [getu4]: the code unit of a [\uXXXX] escape at the start of [s],
    [None] standing for -1. *)
Definition getu4 (s : string) : option N :=
  match s with
  | String b (String u (String h1 (String h2 (String h3 (String h4 _))))) =>
      if Ascii.eqb b (byte_of 92) && (u =c "u") then
        match hexval h1, hexval h2, hexval h3, hexval h4 with
        | Some d1, Some d2, Some d3, Some d4 =>
            Some (((d1 * 16 + d2) * 16 + d3) * 16 + d4)
        | _, _, _, _ => None
        end
      else None
  | _ => None
  end.

(** The character an escape letter stands for. *)
Definition unescape (e : ascii) : option ascii :=
  if Ascii.eqb e (byte_of 34) || Ascii.eqb e (byte_of 92) || (e =c "/")
     || (e =c "'")
  then Some e
  else if e =c "b" then Some (byte_of 8)
  else if e =c "f" then Some (byte_of 12)
  else if e =c "n" then Some (byte_of 10)
  else if e =c "r" then Some (byte_of 13)
  else if e =c "t" then Some (byte_of 9)
  else None.

(** [unquoteBytes] on the text between the quotes: escapes are replaced
    and malformed UTF-8 is coerced to U+FFFD.  (The Go function first tries
    to return its input when there is nothing to replace; the general loop
    gives the same bytes.)  Every round consumes at least one byte. *)
Fixpoint unquote_loop (fuel : nat) (s : string) : option string :=
  match fuel, s with
  | _, EmptyString => Some EmptyString
  | O, _ => None
  | S fuel', String c rest =>
      if Ascii.eqb c (byte_of 92) then
        match rest with
        | EmptyString => None
        | String e rest2 =>
            if e =c "u" then
              match getu4 s with
              | None => None
              | Some rr =>
                  let s6 := drop 6 s in
                  if utf16.IsSurrogate rr then
                    let dec := utf16.DecodeRune rr (getu4 s6) in
                    if negb (dec =? utf8.RuneError) then
                      option_map (append (utf8.EncodeRune dec))
                        (unquote_loop fuel' (drop 6 s6))
                    else
                      option_map (append (utf8.EncodeRune utf8.RuneError))
                        (unquote_loop fuel' s6)
                  else
                    option_map (append (utf8.EncodeRune rr))
                      (unquote_loop fuel' s6)
              end
            else
              match unescape e with
              | Some a => option_map (String a) (unquote_loop fuel' rest2)
              | None => None
              end
        end
      else if Ascii.eqb c (byte_of 34) || (N_of_ascii c <? 0x20) then None
      else if N_of_ascii c <? utf8.RuneSelf then
        option_map (String c) (unquote_loop fuel' rest)
      else
        let '(rr, size) := utf8.DecodeRune s in
        option_map (append (utf8.EncodeRune rr))
          (unquote_loop fuel' (drop size s))
  end.

Definition unquote (body : string) : option string :=
  unquote_loop (length body) body.

Fixpoint skipSpace (s : string) : string :=
  match s with
  | String c s' => if isSpace c then skipSpace s' else s
  | EmptyString => s
  end.

(** The text of a string literal after its opening quote, up to the
    closing quote, and what follows it. *)
Fixpoint stringBody (s : string) : option (string * string) :=
  match s with
  | EmptyString => None
  | String c rest =>
      if Ascii.eqb c (byte_of 34) then Some (EmptyString, rest)
      else if Ascii.eqb c (byte_of 92) then
        match rest with
        | EmptyString => None
        | String e rest2 =>
            match stringBody rest2 with
            | Some (body, after) => Some (String c (String e body), after)
            | None => None
            end
        end
      else
        match stringBody rest with
        | Some (body, after) => Some (String c body, after)
        | None => None
        end
  end.

Definition stringLit (s : string) : option (string * string) :=
  match stringBody s with
  | Some (body, after) =>
      match unquote body with
      | Some t => Some (t, after)
      | None => None
      end
  | None => None
  end.

Definition isNumberByte (c : ascii) : bool :=
  isDigit c || (c =c "-") || (c =c "+") || (c =c ".") || (c =c "e")
  || (c =c "E").

(** The longest run of number characters at the start of [s]. *)
Fixpoint numberLit (s : string) : string * string :=
  match s with
  | String c s' =>
      if isNumberByte c then
        let '(lit, after) := numberLit s' in (String c lit, after)
      else (EmptyString, s)
  | EmptyString => (EmptyString, EmptyString)
  end.

Definition keyword (k : string) (v : json) (s : string) : option (json * string) :=
  if prefix k s then Some (v, drop (length k) s) else None.

(** The value at the start of [s] and the text after it.  [value], [elems]
    (the rest of an array, after its bracket or a comma) and [members] (the
    rest of an object) call each other; a call consumes a byte at least
    every second level, so a fuel of twice the length is enough. *)
Fixpoint value (fuel : nat) (s : string) : option (json * string) :=
  match fuel with
  | O => None
  | S fuel' =>
      match skipSpace s with
      | EmptyString => None
      | String c rest =>
          if c =c "{" then
            match skipSpace rest with
            | String c' rest' =>
                if c' =c "}" then Some (JObject [], rest')
                else
                  match members fuel' (String c' rest') with
                  | Some (ms, after) => Some (JObject ms, after)
                  | None => None
                  end
            | EmptyString => None
            end
          else if c =c "[" then
            match skipSpace rest with
            | String c' rest' =>
                if c' =c "]" then Some (JArray [], rest')
                else
                  match elems fuel' (String c' rest') with
                  | Some (es, after) => Some (JArray es, after)
                  | None => None
                  end
            | EmptyString => None
            end
          else if Ascii.eqb c (byte_of 34) then
            match stringLit rest with
            | Some (t, after) => Some (JString t, after)
            | None => None
            end
          else if c =c "t" then keyword "true" (JBool true) (String c rest)
          else if c =c "f" then keyword "false" (JBool false) (String c rest)
          else if c =c "n" then keyword "null" JNull (String c rest)
          else if (c =c "-") || isDigit c then
            let '(lit, after) := numberLit (String c rest) in
            Some (JNumber lit, after)
          else None
      end
  end

with elems (fuel : nat) (s : string) : option (list json * string) :=
  match fuel with
  | O => None
  | S fuel' =>
      match value fuel' s with
      | None => None
      | Some (v, after) =>
          match skipSpace after with
          | String c rest =>
              if c =c "]" then Some ([v], rest)
              else if c =c "," then
                match elems fuel' rest with
                | Some (vs, after') => Some (v :: vs, after')
                | None => None
                end
              else None
          | EmptyString => None
          end
      end
  end

with members (fuel : nat) (s : string) : option (list (string * json) * string) :=
  match fuel with
  | O => None
  | S fuel' =>
      match skipSpace s with
      | String q rest =>
          if Ascii.eqb q (byte_of 34) then
            match stringLit rest with
            | None => None
            | Some (key, after) =>
                match skipSpace after with
                | String colon rest1 =>
                    if colon =c ":" then
                      match value fuel' rest1 with
                      | None => None
                      | Some (v, after1) =>
                          match skipSpace after1 with
                          | String c rest2 =>
                              if c =c "}" then Some ([(key, v)], rest2)
                              else if c =c "," then
                                match members fuel' rest2 with
                                | Some (ms, after2) =>
                                    Some ((key, v) :: ms, after2)
                                | None => None
                                end
                              else None
                          | EmptyString => None
                          end
                      end
                    else None
                | EmptyString => None
                end
            end
          else None
      | EmptyString => None
      end
  end.

(** The value held by a text that [stream.readValue] accepted. *)
Definition parse (text : string) : option json :=
  match value (2 * length text + 2) text with
  | Some (v, _) => Some v
  | None => None
  end.

(** The rune [foldRune] picks for a fold orbit that holds an ASCII letter:
    the long s folds with [S], the Kelvin sign with [K].  Any other rune
    outside ASCII folds to a rune outside ASCII, for which the rune
    itself stands here. *)
Definition foldRune (r : N) : N :=
  if r =? 0x17F then 0x53 else if r =? 0x212A then 0x4B else r.

(** [foldName]: equal on two names when they are equal under Unicode
    simple case folding. *)
Fixpoint foldName_loop (fuel : nat) (s : string) : string :=
  match fuel, s with
  | S fuel', String c rest =>
      let b := N_of_ascii c in
      if b <? utf8.RuneSelf then
        String (if (N_of_ascii "a" <=? b) && (b <=? N_of_ascii "z")
                then byte_of (b - 32) else c)
          (foldName_loop fuel' rest)
      else
        let '(r, n) := utf8.DecodeRune s in
        utf8.EncodeRune (foldRune r) ++ foldName_loop fuel' (drop n s)
  | _, _ => EmptyString
  end.

Definition foldName (s : string) : string := foldName_loop (length s) s.

(** [strconv.ParseUint(s, 10, 64)] without the range check: the digits'
    value. *)
Fixpoint digitsValue (acc : N) (s : string) : option N :=
  match s with
  | EmptyString => Some acc
  | String c s' =>
      if isDigit c then digitsValue (acc * 10 + (N_of_ascii c - N_of_ascii "0")) s'
      else None
  end.

(** [strconv.ParseInt(s, 10, 64)]. *)
Definition ParseInt (s : string) : option Z :=
  let '(neg, digits) :=
    match s with
    | String c s' =>
        if c =c "-" then (true, s')
        else if c =c "+" then (false, s')
        else (false, s)
    | EmptyString => (false, s)
    end in
  match digits with
  | EmptyString => None
  | _ =>
      match digitsValue 0 digits with
      | None => None
      | Some un =>
          if neg then
            if un <=? 2 ^ 63 then Some (- Z.of_N un)%Z else None
          else
            if un <? 2 ^ 63 then Some (Z.of_N un) else None
      end
  end.

End decode.

(* ================================================================= *)
(** ** Package [yeelight] *)

(** [command] is sent to the light bulb.  [command_Params] is a slice:
    [None] is nil. *)
Record command : Type := mkCommand {
  command_ID : Z;
  command_Method : string;
  command_Params : option (list value)
}.

(** A [[]string]: nil, or the elements in view followed by what the
    backing array holds past the length (an array decoded over a longer
    one leaves the old elements there). *)
Inductive string_slice : Type :=
| nil_slice
| slice (elems : list string) (beyond : list string).

(** [response] is received from the light bulb. *)
Record response : Type := mkResponse {
  response_ID : Z;
  response_Result : string_slice
}.

(** [Method] describes the method to send to the light bulb. *)
Definition Method : Type := string.

Definition MethodSetCTABX : Method := "set_ct_abx".
Definition MethodSetRGB : Method := "set_rgb".
Definition MethodSetHSV : Method := "set_hsv".
Definition MethodSetBrightness : Method := "set_bright".
Definition MethodSetPower : Method := "set_power".
Definition MethodToggle : Method := "toggle".

(** [Method.String]: the receiver is a pointer to a [Method], [None] is nil. *)
Definition Method_String (m : option Method) : string :=
  match m with
  | None => ""
  | Some m => m
  end.

(** [Bulb] is used to control the lights.  The field [mu] guards [Send]
    against concurrent callers; in a run of one caller, locking on entry and
    unlocking on return leaves the mutex as it was, and the field is not
    represented. *)
Record Bulb : Type := mkBulb {
  cmdID : Z;
  conn : net.Conn
}.

Module json_command.

(** The members of the object written for a [command], [params] being the
    encoding of its last field: the fields in declaration order under their
    tags. *)
Definition members (cmd : command) (params : string) : string :=
  QUOTE ++ "id" ++ QUOTE ++ ":" ++ GoInt.format (command_ID cmd)
  ++ "," ++ QUOTE ++ "method" ++ QUOTE ++ ":"
  ++ jsonenc.appendString (command_Method cmd)
  ++ "," ++ QUOTE ++ "params" ++ QUOTE ++ ":" ++ params.

(** [json.Marshal] of a [command]. *)
Definition Marshal (cmd : command) : result string :=
  match jsonenc.encodeSlice (command_Params cmd) with
  | Err e => Err e
  | Ok params => Ok ("{" ++ members cmd params ++ "}")
  end.

(** [json.NewEncoder(w).Encode(cmd)]: the encoding, then a line feed, in
    one [Write]. *)
Definition Encode (w : net.Conn) (cmd : command) : option error * net.Conn :=
  match Marshal cmd with
  | Err e => (Some e, w)
  | Ok text => net.Write w (text ++ LF)
  end.

End json_command.

Module json_response.

Definition zero : response :=
  {| response_ID := 0; response_Result := nil_slice |}.

(** Storing a JSON value into an [int] field. *)
Definition storeInt (old : Z) (j : json) : result Z :=
  match j with
  | JNull => Ok old
  | JNumber lit =>
      match decode.ParseInt lit with
      | Some n => Ok n
      | None => Err UnmarshalTypeError
      end
  | _ => Err UnmarshalTypeError
  end.

(** Storing a JSON value into a [string] element. *)
Definition storeString (old : string) (j : json) : result string :=
  match j with
  | JNull => Ok old
  | JString s => Ok s
  | _ => Err UnmarshalTypeError
  end.

(** Storing the elements of an array into the slots of a slice, a slot
    that does not exist yet being the empty string. *)
Fixpoint storeElems (js : list json) (slots : list string) : result (list string) :=
  match js with
  | [] => Ok []
  | j :: js' =>
      match storeString (hd "" slots) j with
      | Err e => Err e
      | Ok s =>
          match storeElems js' (tl slots) with
          | Err e => Err e
          | Ok ss => Ok (s :: ss)
          end
      end
  end.

Definition slots (v : string_slice) : list string :=
  match v with
  | nil_slice => []
  | slice elems beyond => elems ++ beyond
  end.

(** Storing a JSON value into a [[]string] field. *)
Definition storeSlice (old : string_slice) (j : json) : result string_slice :=
  match j with
  | JNull => Ok nil_slice
  | JArray [] => Ok (slice [] [])
  | JArray js =>
      match storeElems js (slots old) with
      | Err e => Err e
      | Ok es => Ok (slice es (skipn (List.length js) (slots old)))
      end
  | _ => Err UnmarshalTypeError
  end.

(** The members of an object, in order: a key selects the field whose tag
    it equals, exactly or under case folding; other keys are skipped. *)
Fixpoint storeFields (ms : list (string * json)) (r : response) : result response :=
  match ms with
  | [] => Ok r
  | (key, v) :: ms' =>
      if String.eqb key "id" || String.eqb (decode.foldName key) (decode.foldName "id")
      then
        match storeInt (response_ID r) v with
        | Err e => Err e
        | Ok n =>
            storeFields ms'
              {| response_ID := n; response_Result := response_Result r |}
        end
      else if String.eqb key "result"
              || String.eqb (decode.foldName key) (decode.foldName "result")
      then
        match storeSlice (response_Result r) v with
        | Err e => Err e
        | Ok l =>
            storeFields ms' {| response_ID := response_ID r; response_Result := l |}
        end
      else storeFields ms' r
  end.

(** [decodeState.unmarshal] into a zero [response].  A type mismatch is
    recorded and reported once the value is walked; what the struct holds
    then is not returned. *)
Definition unmarshal (text : string) : result response :=
  match decode.parse text with
  | None => Err SyntaxError
  | Some JNull => Ok zero
  | Some (JObject ms) => storeFields ms zero
  | Some _ => Err UnmarshalTypeError
  end.

(** [json.NewDecoder(r).Decode(&resp)] with [resp] a zero [response]: read
    one value from the connection, then store it.  The decoder is dropped
    after the call, and what it had read past the value with it. *)
Definition Decode (r : net.Conn) : result response * net.Conn :=
  let '(v, rs) := stream.readValue scanner.reset "" 0 (net.reads r) in
  let r' := {| net.wire := net.wire r; net.writes := net.writes r;
               net.reads := rs |} in
  match v with
  | Err e => (Err e, r')
  | Ok text => (unmarshal text, r')
  end.

End json_response.

(** [NewBulb] creates a new Bulb object. *)
Definition NewBulb (world : net.Network) (address : string) : result Bulb :=
  let address :=
    if negb (strings.Contains address ":") then address ++ ":55443"
    else address in
  match net.Dial world address with
  | Err e => Err (Errorf "could not dial address: %+v" e)
  | Ok c => Ok {| cmdID := 0; conn := c |}
  end.

(** The slice a variadic parameter holds: nil when no argument is
    passed. *)
Definition variadic (args : list value) : option (list value) :=
  match args with
  | [] => None
  | _ => Some args
  end.

(** [Send] can be used to send commands to the light bulb.  It returns the
    error, [None] for nil, and the bulb as the call leaves it. *)
Definition Send (b : Bulb) (method : Method) (args : list value)
    : option error * Bulb :=
  let cmd := {| command_ID := cmdID b;
                command_Method := Method_String (Some method);
                command_Params := variadic args |} in
  match json_command.Encode (conn b) cmd with
  | (Some e, c1) =>
      (Some (Errorf "cannot write json: %+v" e), {| cmdID := cmdID b; conn := c1 |})
  | (None, c1) =>
      match Fprint c1 CRLF with
      | (Some e, c2) =>
          (Some (Errorf "cannot write trailer: %+v" e),
           {| cmdID := cmdID b; conn := c2 |})
      | (None, c2) =>
          match json_response.Decode c2 with
          | (Err e, c3) =>
              (Some (Errorf "receiving response: %+v" e),
               {| cmdID := cmdID b; conn := c3 |})
          | (Ok _, c3) =>
              (None, {| cmdID := GoInt.add (cmdID b) 1; conn := c3 |})
          end
      end
  end.

(** [TurnOn] will turn the light bulb on. *)
Definition TurnOn (b : Bulb) : option error * Bulb :=
  Send b MethodSetPower [VStr "on"].

(** [TurnOff] will turn the light bulb off. *)
Definition TurnOff (b : Bulb) : option error * Bulb :=
  Send b MethodSetPower [VStr "off"].

(** [ColorTemp] will set the light bulbs color temperature. *)
Definition ColorTemp (b : Bulb) (temp : Z) : option error * Bulb :=
  let temp :=
    if temp <? 1700 then 1700
    else if temp >? 6500 then 6500
    else temp in
  Send b MethodSetCTABX [VInt temp].

(** [RGB] will set the light bulbs red, green and blue values.  In Go
    [<<] binds tighter than [+]. *)
Definition RGB (b : Bulb) (red green blue : Z) : option error * Bulb :=
  Send b MethodSetRGB
    [VInt (GoInt.add (GoInt.add (GoInt.shl red 16) (GoInt.shl green 8)) blue)].

(** [Brightness] will set the light bulbs brightness. *)
Definition Brightness (b : Bulb) (brightness : Z) : option error * Bulb :=
  let brightness :=
    if brightness >? 100 then 100
    else if brightness <? 1 then 1
    else brightness in
  Send b MethodSetBrightness [VInt brightness].

(* ================================================================= *)
(** ** Runs of a session and the terms of the specification *)

(** A call of [Send]: the method and the arguments. *)
Definition call : Type := (Method * list value)%type.

(** The command [Send] builds for a call when the counter is [id]. *)
Definition command_of (id : Z) (c : call) : command :=
  {| command_ID := id;
     command_Method := Method_String (Some (fst c));
     command_Params := variadic (snd c) |}.

(** Consecutive calls of [Send] on one session: the error of each call
    and the session at the end. *)
Fixpoint SendAll (b : Bulb) (calls : list call) : list (option error) * Bulb :=
  match calls with
  | [] => ([], b)
  | c :: rest =>
      let '(e, b1) := Send b (fst c) (snd c) in
      let '(es, b2) := SendAll b1 rest in
      (e :: es, b2)
  end.

(** The request frame as it is found on the wire: the JSON text, the line
    feed of the encoder, the terminator. *)
Definition frame (text : string) : string := text ++ LF ++ CRLF.

Fixpoint concat_all (l : list string) : string :=
  match l with
  | [] => ""
  | x :: l' => x ++ concat_all l'
  end.

(** Clamping into the inclusive range from [lo] to [hi], as the
    specification words it. *)
Definition clamp (lo hi x : Z) : Z := Z.max lo (Z.min hi x).

(** The packed colour as the specification words it. *)
Definition packed_or (red green blue : Z) : Z :=
  GoInt.or (GoInt.or (GoInt.shl red 16) (GoInt.shl green 8)) blue.

(** The session obtained by dialling [address] as it stands. *)
Definition dialled (world : net.Network) (address : string) : result Bulb :=
  match net.Dial world address with
  | Err e => Err (Errorf "could not dial address: %+v" e)
  | Ok c => Ok {| cmdID := 0; conn := c |}
  end.

(** A fresh connection on which every write goes through and the reads
    return the given chunks, then end of file. *)
Definition connection (replies : list string) : net.Conn :=
  {| net.wire := "";
     net.writes := [];
     net.reads := map (fun r => net.mkRead r None) replies |}.

(** A network in which every host answers on every port, with a device
    that sends [replies]. *)
Definition reachable (replies : list string) : net.Network :=
  fun _ _ => Ok (connection replies).

(** The reply of a device that carried a command out. *)
Definition reply_ok (id : string) : string :=
  "{" ++ QUOTE ++ "id" ++ QUOTE ++ ":" ++ id ++ ", " ++ QUOTE ++ "result" ++ QUOTE
  ++ ":[" ++ QUOTE ++ "ok" ++ QUOTE ++ "]}" ++ CRLF.

(** The reply of a device that refused a command. *)
Definition reply_error (id : string) : string :=
  "{" ++ QUOTE ++ "id" ++ QUOTE ++ ":" ++ id ++ ", " ++ QUOTE ++ "error" ++ QUOTE
  ++ ":{" ++ QUOTE ++ "code" ++ QUOTE ++ ":-1, " ++ QUOTE ++ "message" ++ QUOTE
  ++ ":" ++ QUOTE ++ "unsupported method" ++ QUOTE ++ "}}" ++ CRLF.

(** The outcomes of [Send], by the step that decided the call. *)
Inductive Send_outcome (b : Bulb) (c : call) : option error -> Bulb -> Prop :=
| Send_marshal_fails e :
    json_command.Marshal (command_of (cmdID b) c) = Err e ->
    Send_outcome b c (Some (Errorf "cannot write json: %+v" e))
      {| cmdID := cmdID b; conn := conn b |}
| Send_write_fails text e c1 :
    json_command.Marshal (command_of (cmdID b) c) = Ok text ->
    net.Write (conn b) (text ++ LF) = (Some e, c1) ->
    Send_outcome b c (Some (Errorf "cannot write json: %+v" e))
      {| cmdID := cmdID b; conn := c1 |}
| Send_trailer_fails text e c1 c2 :
    json_command.Marshal (command_of (cmdID b) c) = Ok text ->
    net.Write (conn b) (text ++ LF) = (None, c1) ->
    net.Write c1 CRLF = (Some e, c2) ->
    Send_outcome b c (Some (Errorf "cannot write trailer: %+v" e))
      {| cmdID := cmdID b; conn := c2 |}
| Send_receive_fails text e c1 c2 c3 :
    json_command.Marshal (command_of (cmdID b) c) = Ok text ->
    net.Write (conn b) (text ++ LF) = (None, c1) ->
    net.Write c1 CRLF = (None, c2) ->
    json_response.Decode c2 = (Err e, c3) ->
    Send_outcome b c (Some (Errorf "receiving response: %+v" e))
      {| cmdID := cmdID b; conn := c3 |}
| Send_succeeds text resp c1 c2 c3 :
    json_command.Marshal (command_of (cmdID b) c) = Ok text ->
    net.Write (conn b) (text ++ LF) = (None, c1) ->
    net.Write c1 CRLF = (None, c2) ->
    json_response.Decode c2 = (Ok resp, c3) ->
    Send_outcome b c None {| cmdID := GoInt.add (cmdID b) 1; conn := c3 |}.

(** The replies and the calls of a short session. *)
Definition three_replies : list string :=
  [reply_ok "0"; reply_ok "1"; reply_ok "2"].

Definition three_calls : list call :=
  [(MethodSetPower, [VStr "on"]); (MethodSetBrightness, [VInt 50]);
   (MethodToggle, [])].

(** The text [Send] writes for [TurnOn] on a fresh session. *)
Definition power_on_text : string :=
  "{" ++ QUOTE ++ "id" ++ QUOTE ++ ":0," ++ QUOTE ++ "method" ++ QUOTE ++ ":"
  ++ QUOTE ++ "set_power" ++ QUOTE ++ "," ++ QUOTE ++ "params" ++ QUOTE ++ ":["
  ++ QUOTE ++ "on" ++ QUOTE ++ "]}".

(** The number of calls of a run that returned nil. *)
Definition successes (errs : list (option error)) : nat :=
  List.length
    (filter (fun e => match e with None => true | Some _ => false end) errs).

(** Every byte of [s] passes the test [p]. *)
Fixpoint all_bytes (p : ascii -> bool) (s : string) : bool :=
  match s with
  | EmptyString => true
  | String c s' => p c && all_bytes p s'
  end.

(** A byte that is not an ASCII control character. *)
Definition printable (c : ascii) : bool := (0x20 <=? N_of_ascii c)%N.

(** A byte outside ASCII. *)
Definition high (c : ascii) : bool := (0x80 <=? N_of_ascii c)%N.

(** Everything the peer sends on a connection from now on, in order. *)
Definition incoming (c : net.Conn) : string :=
  concat_all (map net.data (net.reads c)).

(** The text begins, after white space, like a JSON object or like
    [null]. *)
Definition starts_like_response (s : string) : bool :=
  match decode.skipSpace s with
  | String c _ => Ascii.eqb c "{" || Ascii.eqb c "n"
  | EmptyString => false
  end.

(** The JSON text of a [set_power] command. *)
Definition power_text (id : Z) (state : string) : string :=
  "{" ++ QUOTE ++ "id" ++ QUOTE ++ ":" ++ GoInt.format id ++ "," ++ QUOTE
  ++ "method" ++ QUOTE ++ ":" ++ QUOTE ++ "set_power" ++ QUOTE ++ "," ++ QUOTE
  ++ "params" ++ QUOTE ++ ":[" ++ QUOTE ++ state ++ QUOTE ++ "]}".

(** The scanner in state [step] inside [stack], before any error. *)
Definition scanning (step : scanner.state) (stack : list scanner.parse_state)
    : scanner.t :=
  {| scanner.step := step; scanner.parseState := stack;
     scanner.endTop := false; scanner.err := false |}.

(** The scanner after the bytes of [text], fed as [stream.scanBuf] feeds
    them, when none of them ends the value or is refused. *)
Fixpoint feed (s : scanner.t) (text : string) : option scanner.t :=
  match text with
  | EmptyString => Some s
  | String c rest =>
      let '(op, s1) := scanner.run s c in
      match op with
      | scanner.scanEnd | scanner.scanError => None
      | scanner.scanEndObject | scanner.scanEndArray =>
          let '(op2, s2) := scanner.stateEndValue s1 " " in
          match op2 with
          | scanner.scanEnd => None
          | _ => feed s2 rest
          end
      | _ => feed s1 rest
      end
  end.

(** A byte that a string literal holds as it is. *)
Definition plain (c : ascii) : bool :=
  negb (Ascii.eqb c (byte_of 34)) && negb (Ascii.eqb c (byte_of 92))
  && (0x20 <=? N_of_ascii c)%N.

(** The states the scanner is in right after a complete value inside an
    array or an object: after a closing quote, bracket or last letter, or
    after the digits of an integer. *)
Definition after_value (step : scanner.state) : Prop :=
  step = scanner.SEndValue \/ step = scanner.S0 \/ step = scanner.S1.

(** The states in which the scanner expects a value. *)
Definition before_value (step : scanner.state) : Prop :=
  step = scanner.SBeginValue \/ step = scanner.SBeginValueOrEmpty.

(** The decimal number begins with a digit other than zero. *)
Definition starts_nonzero (d : Decimal.uint) : bool :=
  match d with
  | Decimal.Nil | Decimal.D0 _ => false
  | _ => true
  end.

(** The JSON text of a command sent without arguments. *)
Definition no_params_text (id : Z) (method : Method) : string :=
  "{" ++ QUOTE ++ "id" ++ QUOTE ++ ":" ++ GoInt.format id ++ "," ++ QUOTE
  ++ "method" ++ QUOTE ++ ":" ++ jsonenc.appendString method ++ "," ++ QUOTE
  ++ "params" ++ QUOTE ++ ":null}".

(** The JSON text of a command with one integer parameter. *)
Definition int_command_text (id : Z) (method : string) (n : Z) : string :=
  "{" ++ QUOTE ++ "id" ++ QUOTE ++ ":" ++ GoInt.format id ++ "," ++ QUOTE
  ++ "method" ++ QUOTE ++ ":" ++ QUOTE ++ method ++ QUOTE ++ "," ++ QUOTE
  ++ "params" ++ QUOTE ++ ":[" ++ GoInt.format n ++ "]}".

(* ================================================================= *)
(** ** Byte strings: lemmas *)

Lemma append_assoc (a b c : string) : (a ++ b) ++ c = a ++ b ++ c.
Proof.
  induction a as [|x a IH]; simpl; [reflexivity|].
  now rewrite IH.
Qed.

Lemma append_empty_r (a : string) : a ++ "" = a.
Proof.
  induction a as [|x a IH]; simpl; [reflexivity|].
  now rewrite IH.
Qed.

(* ================================================================= *)
(** ** Go's [int]: lemmas *)

Lemma wrap_in_range (z : Z) : GoInt.in_range z -> GoInt.wrap z = z.
Proof.
  unfold GoInt.in_range, GoInt.wrap, GoInt.min_int, GoInt.max_int.
  intros H. rewrite Z.mod_small; lia.
Qed.

Lemma wrap_range (z : Z) : GoInt.in_range (GoInt.wrap z).
Proof.
  unfold GoInt.in_range, GoInt.wrap, GoInt.min_int, GoInt.max_int.
  pose proof (Z.mod_pos_bound (z + 2 ^ 63) (2 ^ 64) ltac:(lia)). lia.
Qed.

Lemma wrap_add_l (a b : Z) : GoInt.wrap (GoInt.wrap a + b) = GoInt.wrap (a + b).
Proof.
  unfold GoInt.wrap.
  replace ((a + 2 ^ 63) mod 2 ^ 64 - 2 ^ 63 + b + 2 ^ 63)
    with ((a + 2 ^ 63) mod 2 ^ 64 + b) by lia.
  rewrite Zplus_mod_idemp_l.
  now replace (a + 2 ^ 63 + b) with (a + b + 2 ^ 63) by lia.
Qed.

Lemma wrap_add_r (a b : Z) : GoInt.wrap (a + GoInt.wrap b) = GoInt.wrap (a + b).
Proof.
  rewrite (Z.add_comm a), wrap_add_l. now rewrite Z.add_comm.
Qed.

(** A wrapped multiple of [2 ^ n], [n] at most 63, is a multiple of
    [2 ^ n]. *)
Lemma wrap_shl_multiple (a n : Z) :
  0 <= n <= 63 -> exists k, GoInt.shl a n = k * 2 ^ n.
Proof.
  intros Hn. unfold GoInt.shl, GoInt.wrap.
  rewrite Z.shiftl_mul_pow2 by lia.
  rewrite (Z.mod_eq _ (2 ^ 64)) by lia.
  set (q := (a * 2 ^ n + 2 ^ 63) / 2 ^ 64).
  exists (a - q * 2 ^ (64 - n)).
  replace (2 ^ 64) with (2 ^ (64 - n) * 2 ^ n)
    by (rewrite <- Z.pow_add_r by lia; f_equal; lia).
  lia.
Qed.

(** A multiple of [2 ^ n] shares no bit with a number below [2 ^ n]. *)
Lemma land_multiple_small (k x n : Z) :
  0 <= n -> 0 <= x < 2 ^ n -> Z.land (k * 2 ^ n) x = 0.
Proof.
  intros Hn Hx.
  rewrite <- (Z.mod_small x (2 ^ n)) by lia.
  rewrite <- (Z.land_ones x n) by lia.
  rewrite (Z.land_comm x), Z.land_assoc, Z.land_ones by lia.
  rewrite Z.mod_mul by lia. apply Z.land_0_l.
Qed.

Lemma add_multiple_small (k x n : Z) :
  0 <= n -> 0 <= x < 2 ^ n -> k * 2 ^ n + x = Z.lor (k * 2 ^ n) x.
Proof.
  intros Hn Hx.
  pose proof (land_multiple_small k x n Hn Hx) as H.
  rewrite Z.add_nocarry_lxor by exact H.
  now apply Z.lxor_lor.
Qed.

(* ================================================================= *)
(** ** The connection under [Write] and [Decode] *)

Lemma Write_ok_wire (c c' : net.Conn) (p : string) :
  net.Write c p = (None, c') -> net.wire c' = net.wire c ++ p.
Proof.
  unfold net.Write.
  destruct (net.writes c) as [|[|n] ws]; intros H; inversion H; reflexivity.
Qed.

Lemma Decode_wire (c c' : net.Conn) (r : result response) :
  json_response.Decode c = (r, c') -> net.wire c' = net.wire c.
Proof.
  unfold json_response.Decode.
  destruct (stream.readValue _ _ _ _) as [[text|e] rs]; intros H;
    inversion H; reflexivity.
Qed.

(* ================================================================= *)
(** ** One call of [Send] *)

Lemma Send_outcomes (b : Bulb) (method : Method) (args : list value) :
  Send_outcome b (method, args) (fst (Send b method args)) (snd (Send b method args)).
Proof.
  unfold Send, json_command.Encode, Fprint.
  change {| command_ID := cmdID b;
            command_Method := Method_String (Some method);
            command_Params := variadic args |}
    with (command_of (cmdID b) (method, args)).
  destruct (json_command.Marshal _) as [text|e] eqn:HM; simpl.
  2: now apply Send_marshal_fails.
  destruct (net.Write (conn b) _) as [[e|] c1] eqn:HW1; simpl.
  1: now apply Send_write_fails with text.
  destruct (net.Write c1 CRLF) as [[e|] c2] eqn:HW2; simpl.
  1: now apply Send_trailer_fails with text c1.
  destruct (json_response.Decode c2) as [[resp|e] c3] eqn:HD; simpl.
  - now apply Send_succeeds with text resp c1 c2.
  - now apply Send_receive_fails with text c1 c2.
Qed.

Lemma Send_outcome_of (b b' : Bulb) (method : Method) (args : list value)
    (e : option error) :
  Send b method args = (e, b') -> Send_outcome b (method, args) e b'.
Proof.
  intros H. pose proof (Send_outcomes b method args) as HO.
  now rewrite H in HO.
Qed.

(** A call that returns nil has put one whole frame on the wire, carrying
    the counter as its id, and has advanced the counter. *)
Lemma Send_ok_frame (b b' : Bulb) (method : Method) (args : list value) :
  Send b method args = (None, b') ->
  exists text,
    json_command.Marshal (command_of (cmdID b) (method, args)) = Ok text /\
    net.wire (conn b') = net.wire (conn b) ++ frame text /\
    cmdID b' = GoInt.add (cmdID b) 1.
Proof.
  intros H. apply Send_outcome_of in H. inversion H; subst.
  exists text. split; [assumption|]. split; [|reflexivity]. simpl.
  match goal with
  | HD : json_response.Decode _ = _ |- _ => rewrite (Decode_wire _ _ _ HD)
  end.
  match goal with
  | HW : net.Write _ CRLF = _ |- _ => rewrite (Write_ok_wire _ _ _ HW)
  end.
  match goal with
  | HW : net.Write (conn b) _ = _ |- _ => rewrite (Write_ok_wire _ _ _ HW)
  end.
  unfold frame. now rewrite !append_assoc.
Qed.

(** A call that returns an error leaves the counter as it was. *)
Lemma Send_error_counter (b b' : Bulb) (method : Method) (args : list value)
    (e : error) :
  Send b method args = (Some e, b') -> cmdID b' = cmdID b.
Proof.
  intros H. apply Send_outcome_of in H. inversion H; reflexivity.
Qed.

(* ================================================================= *)
(** ** Consecutive calls *)

Lemma SendAll_ids (calls : list call) :
  forall (b b' : Bulb) (errs : list (option error)) (k : nat),
    SendAll b calls = (errs, b') ->
    Forall (fun e => e = None) errs ->
    cmdID b = Z.of_nat k ->
    Z.of_nat k + Z.of_nat (List.length calls) <= GoInt.max_int ->
    exists texts,
      Forall2
        (fun ic text =>
           json_command.Marshal (command_of (Z.of_nat (fst ic)) (snd ic)) = Ok text)
        (combine (seq k (List.length calls)) calls) texts /\
      net.wire (conn b') = net.wire (conn b) ++ concat_all (map frame texts) /\
      cmdID b' = Z.of_nat k + Z.of_nat (List.length calls).
Proof.
  induction calls as [|[method args] calls IH]; intros b b' errs k HS Hok Hk Hmax.
  - simpl in HS. inversion HS; subst. exists []. simpl.
    split; [constructor|]. split; [now rewrite append_empty_r | lia].
  - cbn [SendAll fst snd] in HS.
    destruct (Send b method args) as [e b1] eqn:H1.
    destruct (SendAll b1 calls) as [es b2] eqn:H2.
    inversion HS; subst. inversion Hok as [|? ? He Hes]; subst.
    apply Send_ok_frame in H1. destruct H1 as (text & HM & HW & HC).
    assert (Hk1 : cmdID b1 = Z.of_nat (S k)).
    { rewrite HC, Hk. unfold GoInt.add. rewrite wrap_in_range.
      - lia.
      - unfold GoInt.in_range, GoInt.min_int, GoInt.max_int in *.
        cbn [List.length] in Hmax. lia. }
    destruct (IH b1 b' es (S k) H2 Hes Hk1) as (texts & HF & HW' & HC').
    { cbn [List.length] in Hmax. lia. }
    exists (text :: texts). cbn [List.length seq combine map concat_all].
    split; [|split].
    + constructor; [|exact HF]. cbn [fst snd]. now rewrite <- Hk.
    + rewrite HW', HW. now rewrite append_assoc.
    + rewrite HC'. lia.
Qed.

(* ================================================================= *)
(** ** The command counter *)

(** C1: a session made by [NewBulb] starts with the counter at 0, and when
    N consecutive calls of [Send] all return nil, the frames they put on the
    wire are, in order, the encodings of commands whose ids are 0, 1, ...,
    N-1; the counter is then N.  (N stays within the range of [int].) *)
Theorem Send_ids_count_from_zero :
  forall (world : net.Network) (address : string) (b : Bulb),
    NewBulb world address = Ok b ->
    cmdID b = 0 /\
    forall (calls : list call) (errs : list (option error)) (b' : Bulb),
      SendAll b calls = (errs, b') ->
      Forall (fun e => e = None) errs ->
      Z.of_nat (List.length calls) <= GoInt.max_int ->
      exists texts,
        Forall2
          (fun ic text =>
             json_command.Marshal (command_of (Z.of_nat (fst ic)) (snd ic))
             = Ok text)
          (combine (seq 0 (List.length calls)) calls) texts /\
        net.wire (conn b') = net.wire (conn b) ++ concat_all (map frame texts) /\
        cmdID b' = Z.of_nat (List.length calls).
Proof.
  intros world address b HN.
  assert (H0 : cmdID b = 0).
  { unfold NewBulb in HN. destruct (net.Dial world _) as [c|e]; inversion HN.
    reflexivity. }
  split; [exact H0|].
  intros calls errs b' HS Hok Hmax.
  destruct (SendAll_ids calls b b' errs 0 HS Hok H0) as (texts & HF & HW & HC).
  - simpl. exact Hmax.
  - exists texts. repeat split; assumption.
Qed.

Lemma Send_ids_count_from_zero_witness :
  exists b b',
    NewBulb (reachable three_replies) "192.168.1.20" = Ok b /\
    SendAll b three_calls = ([None; None; None], b') /\
    cmdID b = 0 /\
    cmdID b' = 3 /\
    exists texts,
      Forall2
        (fun ic text =>
           json_command.Marshal (command_of (Z.of_nat (fst ic)) (snd ic))
           = Ok text)
        (combine [0; 1; 2]%nat three_calls) texts /\
      net.wire (conn b') = concat_all (map frame texts).
Proof.
  pose (b := {| cmdID := 0; conn := connection three_replies |}).
  assert (HN : NewBulb (reachable three_replies) "192.168.1.20" = Ok b)
    by (vm_compute; reflexivity).
  destruct (SendAll b three_calls) as [errs b'] eqn:HS.
  assert (He : errs = [None; None; None])
    by (vm_compute in HS; inversion HS; reflexivity).
  subst errs.
  destruct (Send_ids_count_from_zero _ _ _ HN) as [H0 H].
  destruct (H three_calls _ b' HS) as (texts & HF & HW & HC).
  - repeat constructor.
  - vm_compute. discriminate.
  - exists b, b'.
    split; [exact HN|]. split; [exact HS|]. split; [exact H0|].
    split; [exact HC|].
    exists texts. split; [exact HF|]. exact HW.
Defined.

(** C2: a call of [Send] that returns an error, whichever step failed,
    leaves the counter as it was, so that the next call that returns nil
    puts on the wire a command whose id is the one the failed call used. *)
Theorem Send_failure_keeps_counter :
  forall (b b' : Bulb) (method : Method) (args : list value) (e : error),
    Send b method args = (Some e, b') ->
    cmdID b' = cmdID b /\
    (exists cause,
        e = Errorf "cannot write json: %+v" cause \/
        e = Errorf "cannot write trailer: %+v" cause \/
        e = Errorf "receiving response: %+v" cause) /\
    forall (method2 : Method) (args2 : list value) (b'' : Bulb),
      Send b' method2 args2 = (None, b'') ->
      exists text,
        json_command.Marshal (command_of (cmdID b) (method2, args2)) = Ok text /\
        net.wire (conn b'') = net.wire (conn b') ++ frame text /\
        cmdID b'' = GoInt.add (cmdID b) 1.
Proof.
  intros b b' method args e H.
  pose proof (Send_error_counter _ _ _ _ _ H) as HC.
  split; [exact HC|]. split.
  - apply Send_outcome_of in H. inversion H; subst; eexists; eauto.
  - intros method2 args2 b'' H2.
    apply Send_ok_frame in H2. rewrite HC in H2. exact H2.
Qed.

Lemma Send_failure_keeps_counter_witness :
  exists b1 b2,
    Send {| cmdID := 0; conn := connection ["<html>"; reply_ok "0"] |}
      MethodSetPower [VStr "on"]
    = (Some (Errorf "receiving response: %+v" SyntaxError), b1) /\
    cmdID b1 = 0 /\
    Send b1 MethodSetPower [VStr "on"] = (None, b2) /\
    net.wire (conn b2) = net.wire (conn b1) ++ frame power_on_text.
Proof.
  pose (b := {| cmdID := 0; conn := connection ["<html>"; reply_ok "0"] |}).
  destruct (Send b MethodSetPower [VStr "on"]) as [e b1] eqn:H1.
  assert (He : e = Some (Errorf "receiving response: %+v" SyntaxError))
    by (vm_compute in H1; inversion H1; reflexivity).
  subst e.
  destruct (Send b1 MethodSetPower [VStr "on"]) as [e2 b2] eqn:H2.
  assert (He2 : e2 = None).
  { vm_compute in H1. inversion H1; subst b1.
    vm_compute in H2. inversion H2; reflexivity. }
  subst e2.
  destruct (Send_failure_keeps_counter _ _ _ _ _ H1) as (HC & _ & HN).
  destruct (HN _ _ _ H2) as (text & HM & HW & _).
  assert (Ht : text = power_on_text)
    by (vm_compute in HM; inversion HM; reflexivity).
  subst text.
  exists b1, b2.
  split; [exact H1|]. split; [exact HC|]. split; [exact H2|]. exact HW.
Defined.

(* ================================================================= *)
(** ** The request frame *)

(** C3, as the specification states it, fails: [TurnOn] on a fresh session
    returns nil, and the bytes on the wire are not the JSON text followed
    at once by CR LF. *)
Lemma frame_is_not_text_then_crlf :
  json_command.Marshal (command_of 0 (MethodSetPower, [VStr "on"]))
  = Ok power_on_text /\
  fst (TurnOn {| cmdID := 0; conn := connection [reply_ok "0"] |}) = None /\
  net.wire (conn (snd (TurnOn {| cmdID := 0; conn := connection [reply_ok "0"] |})))
  <> power_on_text ++ CRLF /\
  net.wire (conn (snd (TurnOn {| cmdID := 0; conn := connection [reply_ok "0"] |})))
  = power_on_text ++ LF ++ CRLF.
Proof.
  vm_compute. repeat split; try reflexivity. discriminate.
Qed.

(** C3, amended: when both writes of [Send] go through (the call returns
    nil, or fails only on the response), the bytes it has added to the wire
    are the JSON object text of the command, one line feed written by the
    encoder, and the two bytes CR LF, with nothing else. *)
Theorem Send_frame_on_wire :
  forall (b b' : Bulb) (method : Method) (args : list value) (e : option error),
    Send b method args = (e, b') ->
    (e = None \/ exists cause, e = Some (Errorf "receiving response: %+v" cause)) ->
    exists text,
      json_command.Marshal (command_of (cmdID b) (method, args)) = Ok text /\
      net.wire (conn b') = net.wire (conn b) ++ text ++ LF ++ CRLF /\
      exists body, text = "{" ++ body ++ "}".
Proof.
  intros b b' method args e H He.
  apply Send_outcome_of in H.
  assert (Hshape : forall text,
             json_command.Marshal (command_of (cmdID b) (method, args)) = Ok text ->
             exists body, text = "{" ++ body ++ "}").
  { intros text HM. unfold json_command.Marshal in HM.
    destruct (jsonenc.encodeSlice _) as [params|err]; [|discriminate HM].
    exists (json_command.members (command_of (cmdID b) (method, args)) params).
    congruence. }
  assert (Hwire : forall text c1 c2 c3 r,
             net.Write (conn b) (text ++ LF) = (None, c1) ->
             net.Write c1 CRLF = (None, c2) ->
             json_response.Decode c2 = (r, c3) ->
             net.wire c3 = net.wire (conn b) ++ text ++ LF ++ CRLF).
  { intros text c1 c2 c3 r H1 H2 H3.
    rewrite (Decode_wire _ _ _ H3), (Write_ok_wire _ _ _ H2),
      (Write_ok_wire _ _ _ H1).
    now rewrite !append_assoc. }
  inversion H; subst;
    try (destruct He as [He|[cause He]]; discriminate He).
  - exists text. repeat split; eauto.
  - exists text. repeat split; eauto.
Qed.

Lemma Send_frame_on_wire_witness :
  exists b',
    TurnOn {| cmdID := 0; conn := connection [reply_ok "0"] |} = (None, b') /\
    net.wire (conn b') = power_on_text ++ LF ++ CRLF.
Proof.
  pose (b := {| cmdID := 0; conn := connection [reply_ok "0"] |}).
  destruct (Send b MethodSetPower [VStr "on"]) as [e b'] eqn:H.
  assert (He : e = None) by (vm_compute in H; inversion H; reflexivity).
  subst e.
  destruct (Send_frame_on_wire _ _ _ _ _ H (or_introl eq_refl))
    as (text & HM & HW & _).
  assert (Ht : text = power_on_text)
    by (vm_compute in HM; inversion HM; reflexivity).
  subst text.
  exists b'. split; [exact H|]. exact HW.
Defined.

(* ================================================================= *)
(** ** The convenience operations *)

(** C4, as the specification states it, fails: for green 1 and blue 256
    the value sent is 512, the bitwise or of the shifted channels is 256. *)
Lemma RGB_is_not_bitwise_or :
  packed_or 0 1 256 = 256 /\
  RGB {| cmdID := 0; conn := connection [] |} 0 1 256
  = Send {| cmdID := 0; conn := connection [] |} MethodSetRGB [VInt 512] /\
  RGB {| cmdID := 0; conn := connection [] |} 0 1 256
  <> Send {| cmdID := 0; conn := connection [] |} MethodSetRGB
       [VInt (packed_or 0 1 256)].
Proof.
  vm_compute. repeat split; try reflexivity. discriminate.
Qed.

Lemma RGB_value_sum (red green blue : Z) :
  GoInt.add (GoInt.add (GoInt.shl red 16) (GoInt.shl green 8)) blue
  = GoInt.wrap (red * 65536 + green * 256 + blue).
Proof.
  unfold GoInt.add, GoInt.shl.
  rewrite !Z.shiftl_mul_pow2 by lia.
  rewrite wrap_add_l.
  rewrite <- Z.add_assoc, wrap_add_l.
  rewrite (Z.add_comm (red * 2 ^ 16)), <- Z.add_assoc, wrap_add_l.
  f_equal. lia.
Qed.

Lemma RGB_value_or (red green blue : Z) :
  0 <= green <= 255 -> 0 <= blue <= 255 ->
  GoInt.add (GoInt.add (GoInt.shl red 16) (GoInt.shl green 8)) blue
  = packed_or red green blue.
Proof.
  intros Hg Hb. unfold packed_or, GoInt.or, GoInt.add.
  destruct (wrap_shl_multiple red 16 ltac:(lia)) as [k Hk].
  pose proof (wrap_range (Z.shiftl red 16)) as Hr.
  fold (GoInt.shl red 16) in Hr. rewrite Hk in *.
  assert (HG : GoInt.shl green 8 = green * 2 ^ 8).
  { unfold GoInt.shl. rewrite Z.shiftl_mul_pow2 by lia.
    apply wrap_in_range. unfold GoInt.in_range, GoInt.min_int, GoInt.max_int.
    lia. }
  rewrite HG.
  unfold GoInt.in_range, GoInt.min_int, GoInt.max_int in Hr.
  assert (Hk' : k <= 2 ^ 47 - 1) by lia.
  rewrite (wrap_in_range (k * 2 ^ 16 + green * 2 ^ 8))
    by (unfold GoInt.in_range, GoInt.min_int, GoInt.max_int; lia).
  rewrite wrap_in_range
    by (unfold GoInt.in_range, GoInt.min_int, GoInt.max_int; lia).
  rewrite <- (add_multiple_small k (green * 2 ^ 8) 16) by lia.
  replace (k * 2 ^ 16 + green * 2 ^ 8) with ((k * 2 ^ 8 + green) * 2 ^ 8) by lia.
  apply add_multiple_small; lia.
Qed.

(** C4, amended: [RGB] sends, as the one parameter of [set_rgb], the sum
    red * 65536 + green * 256 + blue reduced to 64 bits, without checking
    the three inputs; whenever green and blue are between 0 and 255 this
    is (red << 16) | (green << 8) | blue.  RGB(255,0,0) sends 16711680,
    RGB(0,255,0) sends 65280 and RGB(0,0,255) sends 255. *)
Theorem RGB_sends_sum_of_shifted_channels :
  forall (b : Bulb) (red green blue : Z),
    RGB b red green blue
    = Send b MethodSetRGB [VInt (GoInt.wrap (red * 65536 + green * 256 + blue))] /\
    (0 <= green <= 255 -> 0 <= blue <= 255 ->
     RGB b red green blue = Send b MethodSetRGB [VInt (packed_or red green blue)]) /\
    RGB b 255 0 0 = Send b MethodSetRGB [VInt 16711680] /\
    RGB b 0 255 0 = Send b MethodSetRGB [VInt 65280] /\
    RGB b 0 0 255 = Send b MethodSetRGB [VInt 255].
Proof.
  intros b red green blue. unfold RGB. repeat split.
  - now rewrite RGB_value_sum.
  - intros Hg Hb. now rewrite RGB_value_or.
Qed.

Lemma RGB_sends_sum_of_shifted_channels_witness :
  RGB {| cmdID := 0; conn := connection [] |} 18 52 86
  = Send {| cmdID := 0; conn := connection [] |} MethodSetRGB [VInt 1193046] /\
  packed_or 18 52 86 = 1193046.
Proof.
  destruct (RGB_sends_sum_of_shifted_channels
              {| cmdID := 0; conn := connection [] |} 18 52 86)
    as (_ & H & _).
  split; [|reflexivity].
  apply H; lia.
Defined.

(** C5: for every integer, [ColorTemp] sends [set_ct_abx] with the one
    parameter the input clamped into 1700..6500; ColorTemp(1000) sends
    1700, ColorTemp(9000) sends 6500, ColorTemp(3000) sends 3000. *)
Theorem ColorTemp_clamps :
  forall (b : Bulb) (kelvin : Z),
    ColorTemp b kelvin = Send b MethodSetCTABX [VInt (clamp 1700 6500 kelvin)] /\
    MethodSetCTABX = "set_ct_abx" /\
    1700 <= clamp 1700 6500 kelvin <= 6500 /\
    ColorTemp b 1000 = Send b MethodSetCTABX [VInt 1700] /\
    ColorTemp b 9000 = Send b MethodSetCTABX [VInt 6500] /\
    ColorTemp b 3000 = Send b MethodSetCTABX [VInt 3000].
Proof.
  intros b kelvin. unfold ColorTemp, clamp. repeat split; try lia.
  do 2 f_equal. f_equal.
  destruct (Z.ltb_spec kelvin 1700); [lia|].
  destruct (kelvin >? 6500) eqn:H6; [apply Z.gtb_lt in H6; lia|].
  assert (~ kelvin > 6500) by (intros Hgt; apply Z.gtb_gt in Hgt; congruence).
  lia.
Qed.

(** C6: for every integer, [Brightness] sends [set_bright] with the one
    parameter the input clamped into 1..100, zero and negative values
    becoming 1; Brightness(0) sends 1, Brightness(150) sends 100,
    Brightness(50) sends 50. *)
Theorem Brightness_clamps :
  forall (b : Bulb) (percent : Z),
    Brightness b percent = Send b MethodSetBrightness [VInt (clamp 1 100 percent)] /\
    MethodSetBrightness = "set_bright" /\
    1 <= clamp 1 100 percent <= 100 /\
    Brightness b 0 = Send b MethodSetBrightness [VInt 1] /\
    Brightness b 150 = Send b MethodSetBrightness [VInt 100] /\
    Brightness b 50 = Send b MethodSetBrightness [VInt 50].
Proof.
  intros b percent. unfold Brightness, clamp. repeat split; try lia.
  do 2 f_equal. f_equal.
  destruct (percent >? 100) eqn:H1; [apply Z.gtb_lt in H1; lia|].
  assert (~ percent > 100) by (intros Hgt; apply Z.gtb_gt in Hgt; congruence).
  destruct (Z.ltb_spec percent 1); lia.
Qed.

(* ================================================================= *)
(** ** The response *)

(** Whatever the reply, a value that does not decode makes [Send] fail. *)
Lemma Send_rejects_undecodable_reply (b : Bulb) (method : Method)
    (args : list value) (text : string) (c1 c2 c3 : net.Conn) (e : error) :
  json_command.Marshal (command_of (cmdID b) (method, args)) = Ok text ->
  net.Write (conn b) (text ++ LF) = (None, c1) ->
  net.Write c1 CRLF = (None, c2) ->
  json_response.Decode c2 = (Err e, c3) ->
  Send b method args
  = (Some (Errorf "receiving response: %+v" e), {| cmdID := cmdID b; conn := c3 |}).
Proof.
  intros HM H1 H2 H3. unfold Send, json_command.Encode, Fprint.
  change {| command_ID := cmdID b;
            command_Method := Method_String (Some method);
            command_Params := variadic args |}
    with (command_of (cmdID b) (method, args)).
  now rewrite HM, H1, H2, H3.
Qed.

(** A reply cut short by the end of the connection makes [Send] fail and
    leaves the counter at 0. *)
Lemma Send_truncated_reply_fails :
  Send {| cmdID := 0;
          conn := {| net.wire := ""; net.writes := [];
                     net.reads := [net.mkRead ("{" ++ QUOTE ++ "id" ++ QUOTE ++ ":0, ")
                                     (Some EOF)] |} |}
    MethodToggle []
  = (Some (Errorf "receiving response: %+v" ErrUnexpectedEOF),
     {| cmdID := 0;
        conn := {| net.wire :=
                     "{" ++ QUOTE ++ "id" ++ QUOTE ++ ":0," ++ QUOTE ++ "method"
                     ++ QUOTE ++ ":" ++ QUOTE ++ "toggle" ++ QUOTE ++ ","
                     ++ QUOTE ++ "params" ++ QUOTE ++ ":null}" ++ LF ++ CRLF;
                   net.writes := []; net.reads := [] |} |}).
Proof.
  vm_compute. reflexivity.
Qed.

(** C7: the code at a reply that has no result.  The device answers a
    command it refuses with an object holding [id] and [error]; the decoder
    stores it in a [response] whose [Result] stays nil, and [Send] returns
    nil and advances the counter. *)
Theorem Send_accepts_reply_without_result :
  json_response.Decode (connection [reply_error "0"])
  = (Ok {| response_ID := 0; response_Result := nil_slice |}, connection []) /\
  fst (TurnOn {| cmdID := 0; conn := connection [reply_error "0"] |}) = None /\
  cmdID (snd (TurnOn {| cmdID := 0; conn := connection [reply_error "0"] |})) = 1.
Proof.
  vm_compute. repeat split.
Qed.

(** C8: once the command is written, every reply that decodes as a
    response makes [Send] return nil and advance the counter by one,
    whatever id the response carries: the id is never compared with the
    id of the command. *)
Theorem Send_ignores_response_id :
  forall (b : Bulb) (method : Method) (args : list value) (text : string)
         (c1 c2 c3 : net.Conn) (resp : response),
    json_command.Marshal (command_of (cmdID b) (method, args)) = Ok text ->
    net.Write (conn b) (text ++ LF) = (None, c1) ->
    net.Write c1 CRLF = (None, c2) ->
    json_response.Decode c2 = (Ok resp, c3) ->
    GoInt.min_int <= cmdID b < GoInt.max_int ->
    Send b method args = (None, {| cmdID := cmdID b + 1; conn := c3 |}).
Proof.
  intros b method args text c1 c2 c3 resp HM H1 H2 H3 Hr.
  unfold Send, json_command.Encode, Fprint.
  change {| command_ID := cmdID b;
            command_Method := Method_String (Some method);
            command_Params := variadic args |}
    with (command_of (cmdID b) (method, args)).
  rewrite HM, H1, H2, H3. unfold GoInt.add.
  rewrite wrap_in_range; [reflexivity|].
  unfold GoInt.in_range. lia.
Qed.

Lemma Send_ignores_response_id_witness :
  exists resp c3,
    json_response.Decode
      {| net.wire := power_on_text ++ LF ++ CRLF; net.writes := [];
         net.reads := [net.mkRead (reply_ok "7") None] |}
    = (Ok resp, c3) /\
    response_ID resp = 7 /\
    Send {| cmdID := 0; conn := connection [reply_ok "7"] |} MethodSetPower
      [VStr "on"]
    = (None, {| cmdID := 1; conn := c3 |}).
Proof.
  pose (b := {| cmdID := 0; conn := connection [reply_ok "7"] |}).
  pose (c1 := {| net.wire := power_on_text ++ LF; net.writes := [];
                 net.reads := [net.mkRead (reply_ok "7") None] |}).
  pose (c2 := {| net.wire := power_on_text ++ LF ++ CRLF; net.writes := [];
                 net.reads := [net.mkRead (reply_ok "7") None] |}).
  destruct (json_response.Decode c2) as [r c3] eqn:HD.
  assert (Hr : r = Ok {| response_ID := 7; response_Result := slice ["ok"] [] |})
    by (vm_compute in HD; inversion HD; reflexivity).
  subst r.
  eexists; exists c3. split; [exact HD|]. split; [reflexivity|].
  change (Send b MethodSetPower [VStr "on"]
          = (None, {| cmdID := cmdID b + 1; conn := c3 |})).
  apply (Send_ignores_response_id b MethodSetPower [VStr "on"] power_on_text
           c1 c2 c3 {| response_ID := 7; response_Result := slice ["ok"] [] |}).
  - vm_compute. reflexivity.
  - vm_compute. reflexivity.
  - vm_compute. reflexivity.
  - exact HD.
  - vm_compute. split; [discriminate | reflexivity].
Defined.

(* ================================================================= *)
(** ** The address dialled by [NewBulb] *)

Lemma prefix_byte (c a : ascii) (s : string) :
  prefix (String c "") (String a s) = Ascii.eqb a c.
Proof.
  simpl. destruct (ascii_dec c a) as [->|Hne].
  - rewrite Ascii.eqb_refl. now destruct s.
  - symmetry. apply Ascii.eqb_neq. congruence.
Qed.

Lemma Contains_byte (s : string) (c : ascii) :
  strings.Contains s (String c "") = net.has s c.
Proof.
  unfold net.has. induction s as [|a s IH].
  - reflexivity.
  - cbn [strings.Contains strings.IndexByte]. rewrite prefix_byte, IH.
    destruct (Ascii.eqb a c); [reflexivity|].
    now destruct (strings.IndexByte s c).
Qed.

Lemma has_cons (a c : ascii) (s : string) :
  net.has (String a s) c = Ascii.eqb a c || net.has s c.
Proof.
  unfold net.has. simpl. destruct (Ascii.eqb a c); [reflexivity|].
  now destruct (strings.IndexByte s c).
Qed.

Lemma has_app (a s : string) (c : ascii) :
  net.has (a ++ s) c = net.has a c || net.has s c.
Proof.
  induction a as [|x a IH].
  - reflexivity.
  - change (String x a ++ s) with (String x (a ++ s)).
    rewrite !has_cons, IH. now rewrite orb_assoc.
Qed.

Lemma LastIndexByte_has (s : string) (c : ascii) (i : nat) :
  strings.LastIndexByte s c = Some i -> net.has s c = true.
Proof.
  revert i. induction s as [|a s IH]; intros i H.
  - discriminate H.
  - rewrite has_cons. simpl in H.
    destruct (strings.LastIndexByte s c) as [j|].
    + rewrite (IH j eq_refl). apply orb_true_r.
    + destruct (Ascii.eqb a c); [reflexivity | discriminate H].
Qed.

Lemma LastIndexByte_app (a s : string) (c : ascii) (i : nat) :
  strings.LastIndexByte s c = Some i ->
  strings.LastIndexByte (a ++ s) c = Some (String.length a + i)%nat.
Proof.
  intros H. induction a as [|x a IH].
  - exact H.
  - change (String x a ++ s) with (String x (a ++ s)).
    cbn [strings.LastIndexByte]. now rewrite IH.
Qed.

Lemma take_app (a s : string) : take (String.length a) (a ++ s) = a.
Proof.
  unfold take. induction a as [|x a IH].
  - now destruct s.
  - simpl. now rewrite IH.
Qed.

Lemma drop_app (a s : string) : drop (String.length a) (a ++ s) = s.
Proof.
  induction a as [|x a IH]; [reflexivity | exact IH].
Qed.

Lemma drop_S_app (a s : string) (c : ascii) :
  drop (S (String.length a)) (a ++ String c s) = s.
Proof.
  induction a as [|x a IH]; [reflexivity | exact IH].
Qed.

Lemma prefix_app_absent (a s : string) (c : ascii) :
  net.has a c = false -> prefix (String c "") s = false ->
  prefix (String c "") (a ++ s) = false.
Proof.
  intros Ha Hs. destruct a as [|x a].
  - exact Hs.
  - change (String x a ++ s) with (String x (a ++ s)).
    rewrite prefix_byte. rewrite has_cons in Ha.
    now apply orb_false_elim in Ha.
Qed.

(** An address without colon or bracket, once the default port is
    appended, splits into itself and the port 55443. *)
Lemma SplitHostPort_default (address : string) :
  net.has address ":" = false ->
  net.has address "[" = false ->
  net.has address "]" = false ->
  net.SplitHostPort (address ++ ":55443") = Ok (address, "55443").
Proof.
  intros Hc Hl Hr. unfold net.SplitHostPort.
  rewrite (LastIndexByte_app address ":55443" ":" 0 eq_refl).
  rewrite (prefix_app_absent address ":55443" "[" Hl eq_refl).
  rewrite Nat.add_0_r, take_app, Hc.
  change (drop 0 (address ++ ":55443")) with (address ++ ":55443").
  rewrite !has_app, Hl, Hr.
  change (net.has ":55443" "[") with false.
  change (net.has ":55443" "]") with false. cbn [orb].
  change ":55443" with (String ":" "55443").
  now rewrite drop_S_app.
Qed.

(** C9, as the specification states it, fails: the address [[::1]] has no
    port, a device is reachable at [[::1]:55443], and [NewBulb] dials the
    address as it stands, which fails for want of a port. *)
Lemma bracketed_address_gets_no_port :
  net.SplitHostPort "[::1]" = Err (AddrError net.missingPort) /\
  dialled (reachable []) ("[::1]" ++ ":55443")
  = Ok {| cmdID := 0; conn := connection [] |} /\
  NewBulb (reachable []) "[::1]"
  = Err (Errorf "could not dial address: %+v" (AddrError net.missingPort)) /\
  NewBulb (reachable []) "[::1]" <> dialled (reachable []) ("[::1]" ++ ":55443").
Proof.
  vm_compute. repeat split. discriminate.
Qed.

(** C9, amended: for every address that holds no colon, [NewBulb] appends
    the default port 55443 and dials the result, which for an address
    without brackets is that host on port 55443; an address that holds a
    colon, as every address that carries a port does, is dialled as it
    stands. *)
Theorem NewBulb_default_port :
  forall (world : net.Network) (address : string),
    (strings.Contains address ":" = false ->
     NewBulb world address = dialled world (address ++ ":55443")) /\
    (strings.Contains address ":" = false ->
     net.has address "[" = false -> net.has address "]" = false ->
     net.SplitHostPort (address ++ ":55443") = Ok (address, "55443")) /\
    (strings.Contains address ":" = true ->
     NewBulb world address = dialled world address) /\
    (forall host port : string,
        net.SplitHostPort address = Ok (host, port) ->
        NewBulb world address = dialled world address).
Proof.
  intros world address.
  assert (Hyes : strings.Contains address ":" = true ->
                 NewBulb world address = dialled world address).
  { intros H. unfold NewBulb, dialled. now rewrite H. }
  split; [|split; [|split]].
  - intros H. unfold NewBulb, dialled. now rewrite H.
  - intros H Hl Hr. apply SplitHostPort_default; try assumption.
    now rewrite <- Contains_byte.
  - exact Hyes.
  - intros host port H. apply Hyes. rewrite Contains_byte.
    unfold net.SplitHostPort in H.
    destruct (strings.LastIndexByte address ":") as [i|] eqn:HL;
      [|discriminate H].
    now apply LastIndexByte_has with i.
Qed.

Lemma NewBulb_default_port_witness :
  NewBulb (reachable []) "192.168.1.20"
  = dialled (reachable []) "192.168.1.20:55443" /\
  net.SplitHostPort "192.168.1.20:55443" = Ok ("192.168.1.20", "55443") /\
  NewBulb (reachable []) "192.168.1.20:1234"
  = dialled (reachable []) "192.168.1.20:1234".
Proof.
  destruct (NewBulb_default_port (reachable []) "192.168.1.20")
    as (H1 & H2 & _ & _).
  destruct (NewBulb_default_port (reachable []) "192.168.1.20:1234")
    as (_ & _ & H3 & H4).
  split; [exact (H1 eq_refl)|].
  split; [exact (H2 eq_refl eq_refl eq_refl)|].
  exact (H4 "192.168.1.20" "1234" eq_refl).
Defined.

(* ================================================================= *)
(** ** Runs with failures *)

Lemma Send_counter_step (b b' : Bulb) (method : Method) (args : list value)
    (e : option error) :
  Send b method args = (e, b') ->
  cmdID b' = match e with
             | None => GoInt.add (cmdID b) 1
             | Some _ => cmdID b
             end.
Proof.
  intros H. apply Send_outcome_of in H. inversion H; reflexivity.
Qed.

(** In a run of calls of [Send], failed or not, every call returns, and the
    counter ends at its start value plus the number of calls that returned
    nil: a failed call uses up no id.  (The counter stays within the range
    of [int].) *)
Theorem SendAll_counter_counts_successes :
  forall (calls : list call) (b b' : Bulb) (errs : list (option error)),
    SendAll b calls = (errs, b') ->
    0 <= cmdID b ->
    cmdID b + Z.of_nat (List.length calls) <= GoInt.max_int ->
    List.length errs = List.length calls /\
    cmdID b' = cmdID b + Z.of_nat (successes errs).
Proof.
  induction calls as [|[method args] calls IH]; intros b b' errs HS H0 Hmax.
  - simpl in HS. inversion HS; subst. simpl. split; [reflexivity | lia].
  - cbn [SendAll fst snd] in HS.
    destruct (Send b method args) as [e b1] eqn:H1.
    destruct (SendAll b1 calls) as [es b2] eqn:H2.
    inversion HS; subst. apply Send_counter_step in H1.
    cbn [List.length] in Hmax.
    assert (Hb1 : cmdID b1 = cmdID b + (match e with None => 1 | Some _ => 0 end)).
    { rewrite H1. destruct e; [lia|]. unfold GoInt.add.
      apply wrap_in_range.
      unfold GoInt.in_range, GoInt.min_int, GoInt.max_int in *. lia. }
    destruct (IH b1 b' es H2) as [HL HC].
    + rewrite Hb1. destruct e; lia.
    + rewrite Hb1. destruct e; lia.
    + split; [simpl; now rewrite HL|].
      rewrite HC, Hb1. unfold successes. cbn [filter].
      destruct e; cbn [List.length]; lia.
Qed.

Lemma SendAll_counter_counts_successes_witness :
  exists b',
    SendAll {| cmdID := 0; conn := connection ["<html>"; reply_ok "0"; reply_ok "1"] |}
      three_calls
    = ([Some (Errorf "receiving response: %+v" SyntaxError); None; None], b') /\
    cmdID b' = 2.
Proof.
  pose (b := {| cmdID := 0;
                conn := connection ["<html>"; reply_ok "0"; reply_ok "1"] |}).
  destruct (SendAll b three_calls) as [errs b'] eqn:HS.
  assert (He : errs = [Some (Errorf "receiving response: %+v" SyntaxError);
                       None; None])
    by (vm_compute in HS; inversion HS; reflexivity).
  subst errs.
  destruct (SendAll_counter_counts_successes three_calls b b' _ HS) as [_ HC].
  - simpl. lia.
  - vm_compute. discriminate.
  - exists b'. split; [exact HS | exact HC].
Defined.

(* ================================================================= *)
(** ** What a call does to the connection *)

Lemma Write_effect (c c' : net.Conn) (p : string) (e : option error) :
  net.Write c p = (e, c') ->
  net.reads c' = net.reads c /\
  match e with
  | None => net.wire c' = net.wire c ++ p
  | Some _ => exists n, net.wire c' = net.wire c ++ take n p
  end.
Proof.
  unfold net.Write.
  destruct (net.writes c) as [|[|n] ws]; intros H; inversion H; subst; simpl;
    split; try reflexivity.
  now exists n.
Qed.

Lemma readValue_consumes (rs : list net.read_outcome) :
  forall (s : scanner.t) (buf : string) (scanp : nat) (v : result string)
         (rs' : list net.read_outcome),
    stream.readValue s buf scanp rs = (v, rs') ->
    exists k, rs' = skipn k rs /\ (rs <> [] -> (1 <= k)%nat).
Proof.
  induction rs as [|r rs IH]; intros s buf scanp v rs' H; simpl in H.
  - inversion H. exists 0%nat. split; [reflexivity | congruence].
  - assert (Hone : exists k, rs = skipn k (r :: rs) /\ (r :: rs <> [] -> (1 <= k)%nat))
      by (exists 1%nat; split; [reflexivity | lia]).
    destruct (stream.scanBuf s (net.data r) scanp) as [n| |s' scanp'].
    + inversion H; subst. exact Hone.
    + inversion H; subst. exact Hone.
    + destruct (net.rerr r) as [e|].
      * inversion H; subst. exact Hone.
      * apply IH in H. destruct H as (k & Hk & _).
        exists (S k). split; [exact Hk | lia].
Qed.

Lemma Decode_consumes (c c' : net.Conn) (r : result response) :
  json_response.Decode c = (r, c') ->
  exists k, net.reads c' = skipn k (net.reads c) /\
            (net.reads c <> [] -> (1 <= k)%nat).
Proof.
  unfold json_response.Decode.
  destruct (stream.readValue _ _ _ _) as [v rs] eqn:HR.
  apply readValue_consumes in HR.
  destruct v; intros H; inversion H; subst; exact HR.
Qed.


(** When a write of [Send] fails, the call stops there: after a failed
    command write the terminator is not written, after a failed terminator
    write the whole JSON text and its line feed are on the wire followed by
    at most a part of CR LF; in both cases nothing is read from the peer and
    the counter keeps its value. *)
Theorem Send_write_failure_stops :
  forall (b b' : Bulb) (method : Method) (args : list value) (cause : error),
    (Send b method args = (Some (Errorf "cannot write trailer: %+v" cause), b') ->
     exists text n,
       json_command.Marshal (command_of (cmdID b) (method, args)) = Ok text /\
       net.wire (conn b') = net.wire (conn b) ++ text ++ LF ++ take n CRLF /\
       net.reads (conn b') = net.reads (conn b) /\
       cmdID b' = cmdID b) /\
    (Send b method args = (Some (Errorf "cannot write json: %+v" cause), b') ->
     net.reads (conn b') = net.reads (conn b) /\
     cmdID b' = cmdID b /\
     (net.wire (conn b') = net.wire (conn b) \/
      exists text n,
        json_command.Marshal (command_of (cmdID b) (method, args)) = Ok text /\
        net.wire (conn b') = net.wire (conn b) ++ take n (text ++ LF))).
Proof.
  intros b b' method args cause. split; intros H;
    apply Send_outcome_of in H;
    inversion H as [e HM He Hb | text e c1 HM H1 He Hb
                    | text e c1 c2 HM H1 H2 He Hb
                    | text e c1 c2 c3 HM H1 H2 H3 He Hb
                    | text resp c1 c2 c3 HM H1 H2 H3 He Hb]; subst; simpl.
  - apply Write_effect in H1. destruct H1 as [HR1 HW1].
    apply Write_effect in H2. destruct H2 as [HR2 [n HW2]].
    exists text, n. split; [exact HM|]. split; [|split; [congruence | reflexivity]].
    now rewrite HW2, HW1, !append_assoc.
  - split; [reflexivity|]. split; [reflexivity|]. now left.
  - apply Write_effect in H1. destruct H1 as [HR1 [n HW1]].
    split; [exact HR1|]. split; [reflexivity|]. right.
    exists text, n. split; [exact HM | exact HW1].
Qed.

Lemma Send_write_failure_stops_witness :
  exists b1 b2,
    Send {| cmdID := 4;
            conn := {| net.wire := ""; net.writes := [net.WriteAll; net.WriteFails 1];
                       net.reads := [net.mkRead (reply_ok "4") None] |} |}
      MethodToggle []
    = (Some (Errorf "cannot write trailer: %+v" OpError), b1) /\
    net.reads (conn b1) = [net.mkRead (reply_ok "4") None] /\
    cmdID b1 = 4 /\
    Send {| cmdID := 4;
            conn := {| net.wire := ""; net.writes := [net.WriteFails 5];
                       net.reads := [net.mkRead (reply_ok "4") None] |} |}
      MethodToggle []
    = (Some (Errorf "cannot write json: %+v" OpError), b2) /\
    net.reads (conn b2) = [net.mkRead (reply_ok "4") None] /\
    cmdID b2 = 4.
Proof.
  pose (ba := {| cmdID := 4;
                 conn := {| net.wire := "";
                            net.writes := [net.WriteAll; net.WriteFails 1];
                            net.reads := [net.mkRead (reply_ok "4") None] |} |}).
  pose (bb := {| cmdID := 4;
                 conn := {| net.wire := ""; net.writes := [net.WriteFails 5];
                            net.reads := [net.mkRead (reply_ok "4") None] |} |}).
  destruct (Send ba MethodToggle []) as [e1 b1] eqn:H1.
  assert (He1 : e1 = Some (Errorf "cannot write trailer: %+v" OpError))
    by (vm_compute in H1; inversion H1; reflexivity).
  subst e1.
  destruct (Send bb MethodToggle []) as [e2 b2] eqn:H2.
  assert (He2 : e2 = Some (Errorf "cannot write json: %+v" OpError))
    by (vm_compute in H2; inversion H2; reflexivity).
  subst e2.
  destruct (Send_write_failure_stops ba b1 MethodToggle [] OpError) as [Ha _].
  destruct (Send_write_failure_stops bb b2 MethodToggle [] OpError) as [_ Hb].
  destruct (Ha H1) as (text & n & _ & _ & HR1 & HC1).
  destruct (Hb H2) as (HR2 & HC2 & _).
  exists b1, b2.
  split; [exact H1|]. split; [exact HR1|]. split; [exact HC1|].
  split; [exact H2|]. split; [exact HR2 | exact HC2].
Defined.

(* ================================================================= *)
(** ** Arguments that cannot be encoded *)

Lemma encodeElems_unsupported (l : list value) :
  In VChan l -> forall first, jsonenc.encodeElems first l = Err UnsupportedTypeError.
Proof.
  induction l as [|v l IH]; intros Hin first; [destruct Hin|].
  cbn [jsonenc.encodeElems].
  destruct Hin as [->|Hin]; [reflexivity|].
  destruct (jsonenc.encodeValue v) as [t|e] eqn:Hv.
  - now rewrite (IH Hin false).
  - destruct v as [n|s|[|]| |]; try discriminate Hv. now inversion Hv.
Qed.


Lemma variadic_In (args : list value) (v : value) :
  In v args -> exists l, variadic args = Some l /\ In v l.
Proof.
  destruct args as [|a args]; intros H; [destruct H|].
  exists (a :: args). split; [reflexivity | exact H].
Qed.

(** A call of [Send] with an argument that cannot be encoded fails before
    anything is written: the session is left exactly as it was. *)
Theorem Send_unsupported_argument :
  forall (b : Bulb) (method : Method) (args : list value),
    In VChan args ->
    Send b method args
    = (Some (Errorf "cannot write json: %+v" UnsupportedTypeError), b).
Proof.
  intros b method args Hin.
  destruct (variadic_In args VChan Hin) as (l & Hv & Hl).
  unfold Send, json_command.Encode, json_command.Marshal.
  cbn [command_Params]. rewrite Hv. cbn [jsonenc.encodeSlice].
  rewrite (encodeElems_unsupported l Hl true).
  now destruct b.
Qed.

Lemma Send_unsupported_argument_witness :
  Send {| cmdID := 3; conn := connection [reply_ok "3"] |} MethodSetHSV
    [VInt 120; VChan]
  = (Some (Errorf "cannot write json: %+v" UnsupportedTypeError),
     {| cmdID := 3; conn := connection [reply_ok "3"] |}).
Proof.
  apply Send_unsupported_argument. right. now left.
Defined.



(* ================================================================= *)
(** ** The bytes of the JSON text *)

Lemma all_bytes_app (p : ascii -> bool) (a s : string) :
  all_bytes p (a ++ s) = all_bytes p a && all_bytes p s.
Proof.
  induction a as [|c a IH]; [reflexivity|].
  simpl. now rewrite IH, andb_assoc.
Qed.

Lemma printable_ge (c : ascii) (n : N) :
  (0x20 <= n)%N -> (n <= N_of_ascii c)%N -> printable c = true.
Proof.
  intros Hn Hc. unfold printable. apply N.leb_le. lia.
Qed.

Lemma printable_uint (d : Decimal.uint) :
  all_bytes printable (NilEmpty.string_of_uint d) = true.
Proof.
  induction d; simpl; try exact IHd; reflexivity.
Qed.

Lemma printable_format (z : Z) : all_bytes printable (GoInt.format z) = true.
Proof.
  unfold GoInt.format, NilEmpty.string_of_int.
  destruct (Z.to_int z) as [d|d]; simpl; apply printable_uint.
Qed.

Lemma get_all_bytes (p : ascii -> bool) (s : string) :
  all_bytes p s = true ->
  forall (k : nat) (c : ascii), get k s = Some c -> p c = true.
Proof.
  induction s as [|a s IH]; intros Hall k c Hget; [discriminate Hget|].
  simpl in Hall. apply andb_prop in Hall. destruct Hall as [Ha Hs].
  destruct k as [|k]; simpl in Hget.
  - now inversion Hget; subst.
  - now apply (IH Hs k).
Qed.

Lemma printable_hexdigit (n : N) : all_bytes printable (jsonenc.hexdigit n) = true.
Proof.
  unfold jsonenc.hexdigit.
  destruct (get (N.to_nat n) jsonenc.hex) as [c|] eqn:Hg; [|reflexivity].
  simpl. rewrite andb_true_r.
  now apply (get_all_bytes printable jsonenc.hex eq_refl (N.to_nat n)).
Qed.

Lemma printable_escape (c : ascii) :
  all_bytes printable (jsonenc.escape (N_of_ascii c)) = true.
Proof.
  unfold jsonenc.escape. rewrite all_bytes_app.
  change (all_bytes printable BACKSLASH) with true. cbn [andb].
  destruct ((N_of_ascii c =? 0x5C)%N || (N_of_ascii c =? 0x22)%N) eqn:Hq.
  - simpl. rewrite andb_true_r. unfold byte_of. rewrite ascii_N_embedding.
    apply orb_prop in Hq.
    destruct Hq as [Hq|Hq]; apply N.eqb_eq in Hq;
      apply (printable_ge c (N_of_ascii c)); lia.
  - repeat match goal with
           | |- context [if ?x then _ else _] => destruct x; [reflexivity|]
           end.
    now rewrite !all_bytes_app, !printable_hexdigit.
Qed.

Lemma first_lo (p0 : N) (sz : nat) (lo hi : N) :
  utf8.first p0 = Some (sz, lo, hi) -> (0x80 <= lo)%N.
Proof.
  unfold utf8.first.
  repeat match goal with
         | |- context [if ?x then _ else _] => destruct x
         end; intros H; inversion H; subst; lia.
Qed.

Lemma take_S (n : nat) (c : ascii) (s : string) :
  take (S n) (String c s) = String c (take n s).
Proof. reflexivity. Qed.

Lemma take_0 (s : string) : take 0 s = "".
Proof. now destruct s. Qed.

Lemma high_ge (c : ascii) (n : N) :
  (0x80 <= n)%N -> (n <= N_of_ascii c)%N -> high c = true.
Proof.
  intros Hn Hc. unfold high. apply N.leb_le. lia.
Qed.

Lemma all_bytes_impl (p q : ascii -> bool) (s : string) :
  (forall c, p c = true -> q c = true) ->
  all_bytes p s = true -> all_bytes q s = true.
Proof.
  intros Hpq. induction s as [|c s IH]; intros H; [reflexivity|].
  simpl in *. apply andb_prop in H. destruct H as [Hc Hs].
  now rewrite (Hpq c Hc), (IH Hs).
Qed.

Lemma high_printable (c : ascii) : high c = true -> printable c = true.
Proof.
  unfold high, printable. intros H. apply N.leb_le in H. apply N.leb_le. lia.
Qed.

Lemma continuation_high (c : ascii) :
  negb (utf8.continuation (N_of_ascii c)) = false -> high c = true.
Proof.
  intros H. apply negb_false_iff in H. unfold utf8.continuation in H.
  apply andb_prop in H. destruct H as [H _]. apply N.leb_le in H.
  apply (high_ge c 0x80); [lia | exact H].
Qed.

(** The bytes of a rune that [DecodeRune] accepts are outside ASCII. *)
Lemma DecodeRune_take_high (c : ascii) (rest : string) (r : N) (size : nat) :
  (N_of_ascii c <? utf8.RuneSelf)%N = false ->
  utf8.DecodeRune (String c rest) = (r, size) ->
  all_bytes high (take size (String c rest)) = true.
Proof.
  intros Hhi H.
  assert (Hc : high c = true).
  { apply N.ltb_ge in Hhi. unfold utf8.RuneSelf in Hhi.
    apply (high_ge c 0x80); [lia | exact Hhi]. }
  assert (Hone : all_bytes high (take 1 (String c rest)) = true).
  { rewrite take_S, take_0. simpl. now rewrite Hc. }
  unfold utf8.DecodeRune in H. rewrite Hhi in H.
  destruct (utf8.first (N_of_ascii c)) as [[[sz lo] hi]|] eqn:Hf;
    [|inversion H; subst; exact Hone].
  destruct rest as [|c1 t1]; [inversion H; subst; exact Hone|].
  destruct ((N_of_ascii c1 <? lo)%N || (hi <? N_of_ascii c1)%N) eqn:Hb1;
    [inversion H; subst; exact Hone|].
  assert (Hc1 : high c1 = true).
  { apply orb_false_elim in Hb1. destruct Hb1 as [Hb1 _].
    apply N.ltb_ge in Hb1. apply first_lo in Hf.
    apply (high_ge c1 lo); [lia | exact Hb1]. }
  assert (Htwo : all_bytes high (take 2 (String c (String c1 t1))) = true).
  { rewrite !take_S, take_0. simpl. now rewrite Hc, Hc1. }
  assert (Hrest : forall r size,
             match t1 with
             | String c2 t2 =>
                 if negb (utf8.continuation (N_of_ascii c2))
                 then (utf8.RuneError, 1%nat)
                 else
                   match sz, t2 with
                   | 3%nat, _ =>
                       (N.lor (N.shiftl (N.land (N_of_ascii c) 0x0F) 12)
                          (N.lor (N.shiftl (N.land (N_of_ascii c1) 0x3F) 6)
                             (N.land (N_of_ascii c2) 0x3F)), 3%nat)
                   | _, String c3 _ =>
                       if negb (utf8.continuation (N_of_ascii c3))
                       then (utf8.RuneError, 1%nat)
                       else
                         (N.lor (N.shiftl (N.land (N_of_ascii c) 0x07) 18)
                            (N.lor (N.shiftl (N.land (N_of_ascii c1) 0x3F) 12)
                               (N.lor (N.shiftl (N.land (N_of_ascii c2) 0x3F) 6)
                                  (N.land (N_of_ascii c3) 0x3F))), 4%nat)
                   | _, EmptyString => (utf8.RuneError, 1%nat)
                   end
             | EmptyString => (utf8.RuneError, 1%nat)
             end = (r, size) ->
             all_bytes high (take size (String c (String c1 t1))) = true).
  { clear H. intros r' size' H.
    destruct t1 as [|c2 t2]; [inversion H; subst; exact Hone|].
    destruct (negb (utf8.continuation (N_of_ascii c2))) eqn:Hb2;
      [inversion H; subst; exact Hone|].
    apply continuation_high in Hb2.
    assert (Hthree : all_bytes high
                       (take 3 (String c (String c1 (String c2 t2)))) = true).
    { rewrite !take_S, take_0. simpl. now rewrite Hc, Hc1, Hb2. }
    assert (Hfour : match t2 with
                    | String c3 _ =>
                        if negb (utf8.continuation (N_of_ascii c3))
                        then (utf8.RuneError, 1%nat)
                        else
                          (N.lor (N.shiftl (N.land (N_of_ascii c) 0x07) 18)
                             (N.lor (N.shiftl (N.land (N_of_ascii c1) 0x3F) 12)
                                (N.lor (N.shiftl (N.land (N_of_ascii c2) 0x3F) 6)
                                   (N.land (N_of_ascii c3) 0x3F))), 4%nat)
                    | EmptyString => (utf8.RuneError, 1%nat)
                    end = (r', size') ->
                    all_bytes high
                      (take size' (String c (String c1 (String c2 t2)))) = true).
    { intros H4. destruct t2 as [|c3 t3]; [inversion H4; subst; exact Hone|].
      destruct (negb (utf8.continuation (N_of_ascii c3))) eqn:Hb3;
        [inversion H4; subst; exact Hone|].
      apply continuation_high in Hb3. inversion H4; subst.
      rewrite !take_S, take_0. simpl. now rewrite Hc, Hc1, Hb2, Hb3. }
    destruct sz as [|[|[|[|sz]]]]; try (apply Hfour; exact H).
    inversion H; subst; exact Hthree. }
  destruct sz as [|[|[|sz]]]; try (apply (Hrest r size); exact H).
  inversion H; subst; exact Htwo.
Qed.

Lemma DecodeRune_take_printable (c : ascii) (rest : string) (r : N) (size : nat) :
  (N_of_ascii c <? utf8.RuneSelf)%N = false ->
  utf8.DecodeRune (String c rest) = (r, size) ->
  all_bytes printable (take size (String c rest)) = true.
Proof.
  intros Hhi H. apply (all_bytes_impl high printable _ high_printable).
  now apply DecodeRune_take_high with r.
Qed.

Lemma printable_appendString_loop (fuel : nat) :
  forall src, all_bytes printable (jsonenc.appendString_loop fuel src) = true.
Proof.
  induction fuel as [|fuel IH]; intros src; [reflexivity|].
  destruct src as [|c rest]; [reflexivity|].
  cbn [jsonenc.appendString_loop].
  destruct (N_of_ascii c <? utf8.RuneSelf)%N eqn:Hlow.
  - destruct (jsonenc.htmlSafe (N_of_ascii c)) eqn:Hsafe.
    + simpl. rewrite IH, andb_true_r.
      unfold jsonenc.htmlSafe in Hsafe.
      repeat (apply andb_prop in Hsafe; destruct Hsafe as [Hsafe _]).
      exact Hsafe.
    + now rewrite all_bytes_app, printable_escape, IH.
  - destruct (utf8.DecodeRune (String c rest)) as [r size] eqn:HD.
    destruct ((r =? utf8.RuneError)%N && (size =? 1)%nat).
    + now rewrite !all_bytes_app, IH.
    + destruct ((r =? 0x2028)%N || (r =? 0x2029)%N).
      * now rewrite !all_bytes_app, printable_hexdigit, IH.
      * now rewrite all_bytes_app, (DecodeRune_take_printable c rest r size Hlow HD), IH.
Qed.

Lemma printable_appendString (s : string) :
  all_bytes printable (jsonenc.appendString s) = true.
Proof.
  unfold jsonenc.appendString.
  now rewrite !all_bytes_app, printable_appendString_loop.
Qed.

Lemma printable_encodeValue (v : value) (t : string) :
  jsonenc.encodeValue v = Ok t -> all_bytes printable t = true.
Proof.
  destruct v as [n|s|[|]| |]; intros H; inversion H; subst;
    try reflexivity; [apply printable_format | apply printable_appendString].
Qed.

Lemma printable_encodeElems (l : list value) :
  forall first ts, jsonenc.encodeElems first l = Ok ts -> all_bytes printable ts = true.
Proof.
  induction l as [|v l IH]; intros first ts H; cbn [jsonenc.encodeElems] in H.
  - now inversion H.
  - destruct (jsonenc.encodeValue v) as [t|e] eqn:Hv; [|discriminate H].
    destruct (jsonenc.encodeElems false l) as [ts'|e] eqn:Hl; [|discriminate H].
    inversion H; subst.
    rewrite !all_bytes_app, (printable_encodeValue v t Hv), (IH false ts' Hl).
    now destruct first.
Qed.

Lemma printable_Marshal (cmd : command) (text : string) :
  json_command.Marshal cmd = Ok text -> all_bytes printable text = true.
Proof.
  unfold json_command.Marshal, jsonenc.encodeSlice.
  intros H.
  assert (Hp : forall params, all_bytes printable params = true ->
                 all_bytes printable ("{" ++ json_command.members cmd params ++ "}")
                 = true).
  { intros params Hparams. unfold json_command.members.
    rewrite !all_bytes_app, printable_format, printable_appendString, Hparams.
    reflexivity. }
  destruct (command_Params cmd) as [l|].
  - destruct (jsonenc.encodeElems true l) as [ts|e] eqn:Hl; [|discriminate H].
    assert (text = "{" ++ json_command.members cmd ("[" ++ ts ++ "]") ++ "}")
      by congruence.
    subst text. apply Hp.
    now rewrite !all_bytes_app, (printable_encodeElems l true ts Hl).
  - assert (text = "{" ++ json_command.members cmd "null" ++ "}") by congruence.
    subst text. now apply Hp.
Qed.

Lemma IndexByte_absent (a : string) (c : ascii) :
  all_bytes printable a = true -> printable c = false ->
  forall s, strings.IndexByte (a ++ s) c
            = option_map (Nat.add (String.length a)) (strings.IndexByte s c).
Proof.
  intros Ha Hc s. induction a as [|x a IH].
  - simpl. now destruct (strings.IndexByte s c).
  - simpl in Ha. apply andb_prop in Ha. destruct Ha as [Hx Ha].
    change (String x a ++ s) with (String x (a ++ s)).
    cbn [strings.IndexByte].
    destruct (Ascii.eqb x c) eqn:Hxc.
    + apply Ascii.eqb_eq in Hxc. congruence.
    + rewrite (IH Ha). now destruct (strings.IndexByte s c).
Qed.

(** The JSON text of a command holds no control character, whatever the
    method string and the arguments: control characters of strings are
    written as escapes.  So the first line feed of a request frame is the
    one that follows the JSON text, and its first carriage return is that of
    the terminator. *)
Theorem command_text_has_no_control_byte :
  forall (id : Z) (c : call) (text : string),
    json_command.Marshal (command_of id c) = Ok text ->
    all_bytes printable text = true /\
    strings.IndexByte (frame text) (byte_of 10) = Some (String.length text) /\
    strings.IndexByte (frame text) (byte_of 13) = Some (S (String.length text)).
Proof.
  intros id c text H. apply printable_Marshal in H.
  split; [exact H|]. unfold frame.
  rewrite !(IndexByte_absent text _ H) by reflexivity.
  simpl. now rewrite Nat.add_0_r, Nat.add_1_r.
Qed.

Lemma command_text_has_no_control_byte_witness :
  exists text,
    json_command.Marshal
      (command_of 0 (String (byte_of 13) (String (byte_of 10) "x"), [VStr LF]))
    = Ok text /\
    all_bytes printable text = true /\
    strings.IndexByte (frame text) (byte_of 10) = Some (String.length text).
Proof.
  destruct (json_command.Marshal
              (command_of 0 (String (byte_of 13) (String (byte_of 10) "x"),
                             [VStr LF]))) as [text|e] eqn:HM;
    [|vm_compute in HM; discriminate HM].
  destruct (command_text_has_no_control_byte _ _ _ HM) as (H1 & H2 & _).
  exists text. split; [reflexivity|]. split; [exact H1 | exact H2].
Defined.

(* ================================================================= *)
(** ** The frames of the convenience operations *)

Lemma Marshal_power (id : Z) (state : string) :
  jsonenc.appendString state = QUOTE ++ state ++ QUOTE ->
  json_command.Marshal (command_of id (MethodSetPower, [VStr state]))
  = Ok (power_text id state).
Proof.
  intros Hs. unfold json_command.Marshal, command_of, power_text.
  cbn [command_Params snd variadic jsonenc.encodeSlice jsonenc.encodeElems
       jsonenc.encodeValue].
  rewrite Hs. unfold json_command.members.
  cbn [command_ID command_Method fst Method_String].
  change (jsonenc.appendString MethodSetPower)
    with (QUOTE ++ "set_power" ++ QUOTE).
  f_equal. rewrite !append_assoc. reflexivity.
Qed.

(** [TurnOn] and [TurnOff], when they return nil, have put on the wire the
    command [set_power] with the one parameter ["on"], respectively
    ["off"], under the current counter as id, as one frame. *)
Theorem TurnOn_TurnOff_frames :
  forall (b : Bulb),
    (fst (TurnOn b) = None ->
     net.wire (conn (snd (TurnOn b)))
     = net.wire (conn b) ++ power_text (cmdID b) "on" ++ LF ++ CRLF) /\
    (fst (TurnOff b) = None ->
     net.wire (conn (snd (TurnOff b)))
     = net.wire (conn b) ++ power_text (cmdID b) "off" ++ LF ++ CRLF).
Proof.
  intros b. unfold TurnOn, TurnOff. split; intros H.
  - destruct (Send b MethodSetPower [VStr "on"]) as [e b'] eqn:HS.
    simpl in H. subst e. apply Send_ok_frame in HS.
    destruct HS as (text & HM & HW & _).
    rewrite (Marshal_power (cmdID b) "on" eq_refl) in HM.
    inversion HM; subst. exact HW.
  - destruct (Send b MethodSetPower [VStr "off"]) as [e b'] eqn:HS.
    simpl in H. subst e. apply Send_ok_frame in HS.
    destruct HS as (text & HM & HW & _).
    rewrite (Marshal_power (cmdID b) "off" eq_refl) in HM.
    inversion HM; subst. exact HW.
Qed.

Lemma TurnOn_TurnOff_frames_witness :
  net.wire (conn (snd (TurnOn {| cmdID := 12; conn := connection [reply_ok "12"] |})))
  = power_text 12 "on" ++ LF ++ CRLF /\
  net.wire (conn (snd (TurnOff {| cmdID := 12; conn := connection [reply_ok "12"] |})))
  = power_text 12 "off" ++ LF ++ CRLF.
Proof.
  destruct (TurnOn_TurnOff_frames
              {| cmdID := 12; conn := connection [reply_ok "12"] |}) as [Hon Hoff].
  split.
  - apply Hon. vm_compute. reflexivity.
  - apply Hoff. vm_compute. reflexivity.
Defined.

(* ================================================================= *)
(** ** The packed colour *)

Lemma RGB_value_in_range (red green blue : Z) :
  0 <= red <= 255 -> 0 <= green <= 255 -> 0 <= blue <= 255 ->
  GoInt.add (GoInt.add (GoInt.shl red 16) (GoInt.shl green 8)) blue
  = red * 65536 + green * 256 + blue.
Proof.
  intros Hr Hg Hb. rewrite RGB_value_sum. apply wrap_in_range.
  unfold GoInt.in_range, GoInt.min_int, GoInt.max_int. lia.
Qed.

(** For channels between 0 and 255, the value [RGB] sends is a 24-bit
    number whose three bytes are the channels: red is bits 16 to 23, green
    bits 8 to 15, blue bits 0 to 7.  So distinct colours send distinct
    values. *)
Theorem RGB_channels_recoverable :
  forall (b : Bulb) (red green blue : Z),
    0 <= red <= 255 -> 0 <= green <= 255 -> 0 <= blue <= 255 ->
    exists v,
      RGB b red green blue = Send b MethodSetRGB [VInt v] /\
      0 <= v < 2 ^ 24 /\
      Z.shiftr v 16 = red /\
      Z.land (Z.shiftr v 8) 255 = green /\
      Z.land v 255 = blue.
Proof.
  intros b red green blue Hr Hg Hb.
  exists (red * 65536 + green * 256 + blue).
  split; [unfold RGB; now rewrite RGB_value_in_range|].
  split; [lia|].
  change 255 with (Z.ones 8).
  rewrite !Z.land_ones, !Z.shiftr_div_pow2 by lia.
  change (2 ^ 16) with 65536. change (2 ^ 8) with 256.
  split; [|split].
  - symmetry. apply (Z.div_unique _ 65536 red (green * 256 + blue)); lia.
  - assert (Hd : (red * 65536 + green * 256 + blue) / 256 = red * 256 + green).
    { symmetry. apply (Z.div_unique _ 256 (red * 256 + green) blue); lia. }
    rewrite Hd. symmetry.
    apply (Z.mod_unique _ 256 red green); lia.
  - symmetry. apply (Z.mod_unique _ 256 (red * 256 + green) blue); lia.
Qed.

Lemma RGB_channels_recoverable_witness :
  exists v,
    RGB {| cmdID := 0; conn := connection [] |} 18 52 86
    = Send {| cmdID := 0; conn := connection [] |} MethodSetRGB [VInt v] /\
    Z.shiftr v 16 = 18 /\ Z.land (Z.shiftr v 8) 255 = 52 /\ Z.land v 255 = 86.
Proof.
  destruct (RGB_channels_recoverable {| cmdID := 0; conn := connection [] |}
              18 52 86) as (v & H1 & _ & H2 & H3 & H4); try lia.
  exists v. split; [exact H1|]. split; [exact H2|]. split; [exact H3 | exact H4].
Defined.

(** A channel that is out of range spills into its neighbour: 256 more of
    blue sends what one more of green sends, and 256 more of green sends
    what one more of red sends. *)
Theorem RGB_overflow_carries :
  forall (b : Bulb) (red green blue : Z),
    RGB b red green (blue + 256) = RGB b red (green + 1) blue /\
    RGB b red (green + 256) blue = RGB b (red + 1) green blue.
Proof.
  intros b red green blue. unfold RGB. rewrite !RGB_value_sum.
  split; do 4 f_equal; lia.
Qed.

Lemma Marshal_int (id : Z) (method : Method) (n : Z) :
  jsonenc.appendString method = QUOTE ++ method ++ QUOTE ->
  json_command.Marshal (command_of id (method, [VInt n]))
  = Ok (int_command_text id method n).
Proof.
  intros Hs. unfold json_command.Marshal, command_of, int_command_text.
  cbn [command_Params snd variadic jsonenc.encodeSlice jsonenc.encodeElems
       jsonenc.encodeValue].
  unfold json_command.members.
  cbn [command_ID command_Method fst Method_String].
  rewrite Hs. f_equal. rewrite !append_assoc. reflexivity.
Qed.

Lemma Send_int_frame (b : Bulb) (method : Method) (n : Z) :
  jsonenc.appendString method = QUOTE ++ method ++ QUOTE ->
  fst (Send b method [VInt n]) = None ->
  net.wire (conn (snd (Send b method [VInt n])))
  = net.wire (conn b) ++ int_command_text (cmdID b) method n ++ LF ++ CRLF.
Proof.
  intros Hs H.
  destruct (Send b method [VInt n]) as [e b'] eqn:HS.
  simpl in H. subst e. apply Send_ok_frame in HS.
  destruct HS as (text & HM & HW & _).
  rewrite (Marshal_int (cmdID b) method n Hs) in HM.
  inversion HM; subst. exact HW.
Qed.

Lemma ColorTemp_value (temp : Z) :
  (if temp <? 1700 then 1700 else if temp >? 6500 then 6500 else temp)
  = clamp 1700 6500 temp.
Proof.
  unfold clamp. destruct (Z.ltb_spec temp 1700); [lia|].
  destruct (temp >? 6500) eqn:H6; [apply Z.gtb_lt in H6; lia|].
  assert (~ temp > 6500) by (intros Hgt; apply Z.gtb_gt in Hgt; congruence).
  lia.
Qed.

Lemma Brightness_value (brightness : Z) :
  (if brightness >? 100 then 100 else if brightness <? 1 then 1 else brightness)
  = clamp 1 100 brightness.
Proof.
  unfold clamp. destruct (brightness >? 100) eqn:H1; [apply Z.gtb_lt in H1; lia|].
  assert (~ brightness > 100) by (intros Hgt; apply Z.gtb_gt in Hgt; congruence).
  destruct (Z.ltb_spec brightness 1); lia.
Qed.

(** [ColorTemp], [Brightness] and [RGB], when they return nil, have put on
    the wire one frame whose JSON text has the counter as id, the method
    name, and one decimal integer as the only parameter: the clamped
    temperature, the clamped brightness, the packed colour. *)
Theorem numeric_operations_frames :
  forall (b : Bulb) (n red green blue : Z),
    (fst (ColorTemp b n) = None ->
     net.wire (conn (snd (ColorTemp b n)))
     = net.wire (conn b)
       ++ int_command_text (cmdID b) "set_ct_abx" (clamp 1700 6500 n)
       ++ LF ++ CRLF) /\
    (fst (Brightness b n) = None ->
     net.wire (conn (snd (Brightness b n)))
     = net.wire (conn b)
       ++ int_command_text (cmdID b) "set_bright" (clamp 1 100 n) ++ LF ++ CRLF) /\
    (fst (RGB b red green blue) = None ->
     net.wire (conn (snd (RGB b red green blue)))
     = net.wire (conn b)
       ++ int_command_text (cmdID b) "set_rgb"
            (GoInt.wrap (red * 65536 + green * 256 + blue))
       ++ LF ++ CRLF).
Proof.
  intros b n red green blue. unfold ColorTemp, Brightness, RGB.
  rewrite ColorTemp_value, Brightness_value, RGB_value_sum.
  split; [|split]; intros H.
  - now apply (Send_int_frame b MethodSetCTABX).
  - now apply (Send_int_frame b MethodSetBrightness).
  - now apply (Send_int_frame b MethodSetRGB).
Qed.

Lemma numeric_operations_frames_witness :
  net.wire (conn (snd (ColorTemp {| cmdID := 5; conn := connection [reply_ok "5"] |} 9000)))
  = int_command_text 5 "set_ct_abx" 6500 ++ LF ++ CRLF /\
  net.wire (conn (snd (Brightness {| cmdID := 5; conn := connection [reply_ok "5"] |} (-3))))
  = int_command_text 5 "set_bright" 1 ++ LF ++ CRLF /\
  net.wire (conn (snd (RGB {| cmdID := 5; conn := connection [reply_ok "5"] |} 255 128 0)))
  = int_command_text 5 "set_rgb" 16744448 ++ LF ++ CRLF.
Proof.
  destruct (numeric_operations_frames
              {| cmdID := 5; conn := connection [reply_ok "5"] |} 9000 255 128 0)
    as (H1 & _ & H3).
  destruct (numeric_operations_frames
              {| cmdID := 5; conn := connection [reply_ok "5"] |} (-3) 0 0 0)
    as (_ & H2 & _).
  split; [|split].
  - apply H1. vm_compute. reflexivity.
  - apply H2. vm_compute. reflexivity.
  - apply H3. vm_compute. reflexivity.
Defined.

(* ================================================================= *)
(** ** Addresses with several colons *)

Lemma has_LastIndexByte (s : string) (c : ascii) :
  net.has s c = true -> exists j, strings.LastIndexByte s c = Some j.
Proof.
  induction s as [|a s IH]; intros H; [discriminate H|].
  rewrite has_cons in H. cbn [strings.LastIndexByte].
  destruct (strings.LastIndexByte s c) as [j|] eqn:HL; [now exists (S j)|].
  destruct (Ascii.eqb a c); [now exists 0%nat|].
  simpl in H. destruct (IH H) as [j Hj]. discriminate Hj.
Qed.

Lemma take_app_plus (a w : string) (j : nat) :
  take (String.length a + j) (a ++ w) = a ++ take j w.
Proof.
  induction a as [|x a IH]; [reflexivity|].
  change (String x a ++ w) with (String x (a ++ w)).
  cbn [String.length Nat.add]. rewrite take_S. now rewrite IH.
Qed.

(** An address with two colons or more that does not begin with a bracket,
    such as a bare IPv6 address, never yields a session: it gets no default
    port, the dial refuses it for its colons, and the network is not even
    asked. *)
Theorem NewBulb_rejects_bare_ipv6 :
  forall (world : net.Network) (x y z : string),
    prefix "[" (x ++ ":" ++ y ++ ":" ++ z) = false ->
    NewBulb world (x ++ ":" ++ y ++ ":" ++ z)
    = Err (Errorf "could not dial address: %+v" (AddrError net.tooManyColons)).
Proof.
  intros world x y z Hb.
  assert (Hc : strings.Contains (x ++ ":" ++ y ++ ":" ++ z) ":" = true).
  { rewrite Contains_byte, has_app. change (":" ++ y ++ ":" ++ z)
      with (String ":" (y ++ ":" ++ z)).
    rewrite has_cons. cbn. apply orb_true_r. }
  unfold NewBulb. rewrite Hc. cbn [negb]. unfold net.Dial, net.SplitHostPort.
  assert (Hw : net.has (y ++ ":" ++ z) ":" = true).
  { rewrite has_app. change (":" ++ z) with (String ":" z).
    rewrite has_cons. cbn. apply orb_true_r. }
  destruct (has_LastIndexByte _ _ Hw) as [j Hj].
  replace (x ++ ":" ++ y ++ ":" ++ z) with ((x ++ ":") ++ y ++ ":" ++ z) in *
    by (now rewrite append_assoc).
  rewrite (LastIndexByte_app (x ++ ":") _ ":" j Hj), Hb.
  rewrite take_app_plus, !has_app.
  change (net.has ":" ":") with true.
  now rewrite orb_true_r.
Qed.

Lemma NewBulb_rejects_bare_ipv6_witness :
  NewBulb (reachable []) "fe80::1"
  = Err (Errorf "could not dial address: %+v" (AddrError net.tooManyColons)).
Proof.
  apply (NewBulb_rejects_bare_ipv6 (reachable []) "fe80" "" "1"). reflexivity.
Defined.

(* ================================================================= *)
(** ** Replies that are not an object *)

Lemma take_empty (n : nat) : take n "" = "".
Proof. now destruct n. Qed.

Lemma take_prefix (a s : string) :
  forall n, exists n', take n a = take n' (a ++ s).
Proof.
  induction a as [|c a IH]; intros n.
  - exists 0%nat. now rewrite take_empty, take_0.
  - destruct n as [|n].
    + exists 0%nat. now rewrite !take_0.
    + destruct (IH n) as [n' Hn']. exists (S n').
      change (String c a ++ s) with (String c (a ++ s)).
      now rewrite !take_S, Hn'.
Qed.

Lemma whole_prefix (a s : string) : exists n, a = take n (a ++ s).
Proof. exists (String.length a). now rewrite take_app. Qed.

Lemma readError_text (e : error) (s : scanner.t) (buf text : string) :
  stream.readError e s buf = Ok text -> text = buf.
Proof.
  unfold stream.readError. destruct e; try discriminate.
  destruct (fst (scanner.run s " ")); try (destruct (stream.nonSpace buf); discriminate).
  congruence.
Qed.

(** The text [readValue] hands over is a prefix of what was received. *)
Lemma readValue_prefix (rs : list net.read_outcome) :
  forall (s : scanner.t) (buf : string) (scanp : nat) (text : string)
         (rs' : list net.read_outcome),
    stream.readValue s buf scanp rs = (Ok text, rs') ->
    exists n, text = take n (buf ++ concat_all (map net.data rs)).
Proof.
  induction rs as [|r rs IH]; intros s buf scanp text rs' H;
    cbn [stream.readValue] in H.
  - apply (f_equal fst) in H. cbn [fst] in H.
    apply readError_text in H. subst text.
    cbn [map concat_all]. apply whole_prefix.
  - cbn [map concat_all]. rewrite <- append_assoc.
    destruct (stream.scanBuf s (net.data r) scanp) as [n| |s' scanp'].
    + inversion H; subst. apply take_prefix.
    + discriminate H.
    + destruct (net.rerr r) as [e|].
      * apply (f_equal fst) in H. cbn [fst] in H.
        apply readError_text in H. subst text.
        apply whole_prefix.
      * now apply IH in H.
Qed.

Lemma skipSpace_take (s : string) :
  forall (n : nat) (c : ascii) (r : string),
    decode.skipSpace (take n s) = String c r ->
    exists r', decode.skipSpace s = String c r'.
Proof.
  induction s as [|a s IH]; intros n c r H.
  - rewrite take_empty in H. discriminate H.
  - destruct n as [|n]; [rewrite take_0 in H; discriminate H|].
    rewrite take_S in H. cbn [decode.skipSpace] in *.
    destruct (scanner.isSpace a).
    + now apply IH in H.
    + inversion H; subst. now exists s.
Qed.

Lemma starts_like_response_take (s : string) (n : nat) :
  starts_like_response (take n s) = true -> starts_like_response s = true.
Proof.
  unfold starts_like_response.
  destruct (decode.skipSpace (take n s)) as [|c r] eqn:H; [discriminate|].
  apply skipSpace_take in H. destruct H as [r' ->]. auto.
Qed.

(** Only a text that begins like an object or like [null] is stored into
    a [response] without error. *)
Lemma unmarshal_starts (text : string) (resp : response) :
  json_response.unmarshal text = Ok resp -> starts_like_response text = true.
Proof.
  unfold json_response.unmarshal, decode.parse, starts_like_response.
  destruct (2 * String.length text + 2)%nat as [|fuel] eqn:Hf; [lia|].
  cbn [decode.value].
  destruct (decode.skipSpace text) as [|c rest]; [discriminate|].
  destruct (Ascii.eqb c "{"); [reflexivity|].
  destruct (Ascii.eqb c "n"); [now rewrite orb_true_r|].
  intros H. exfalso. revert H.
  destruct (Ascii.eqb c "[").
  { destruct (decode.skipSpace rest) as [|c' rest']; [discriminate|].
    destruct (Ascii.eqb c' "]"); [discriminate|].
    destruct (decode.elems fuel (String c' rest')) as [[es after]|]; discriminate. }
  destruct (Ascii.eqb c (byte_of 34)).
  { destruct (decode.stringLit rest) as [[t after]|]; discriminate. }
  destruct (Ascii.eqb c "t").
  { unfold decode.keyword. destruct (prefix "true" (String c rest)); discriminate. }
  destruct (Ascii.eqb c "f").
  { unfold decode.keyword. destruct (prefix "false" (String c rest)); discriminate. }
  destruct (Ascii.eqb c "-" || scanner.isDigit c); [|discriminate].
  destruct (decode.numberLit (String c rest)) as [lit after]. discriminate.
Qed.

Lemma Decode_starts (c c' : net.Conn) (resp : response) :
  json_response.Decode c = (Ok resp, c') ->
  starts_like_response (incoming c) = true.
Proof.
  unfold json_response.Decode, incoming.
  destruct (stream.readValue _ _ _ _) as [[text|e] rs] eqn:HR; [|discriminate].
  intros H. assert (Hu : json_response.unmarshal text = Ok resp) by congruence.
  apply readValue_prefix in HR. destruct HR as [n Hn]. simpl in Hn. subst text.
  apply unmarshal_starts in Hu. now apply starts_like_response_take in Hu.
Qed.

Lemma Send_ok_starts (b b' : Bulb) (method : Method) (args : list value) :
  Send b method args = (None, b') ->
  starts_like_response (incoming (conn b)) = true.
Proof.
  intros HS. apply Send_outcome_of in HS.
  inversion HS as [| | | | text resp c1 c2 c3 HM H1 H2 H3 He Hb].
  apply Write_effect in H1. destruct H1 as [HR1 _].
  apply Write_effect in H2. destruct H2 as [HR2 _].
  apply Decode_starts in H3. unfold incoming in *.
  now rewrite HR2, HR1 in H3.
Qed.

(** [Send] returns nil only when what the peer sends begins, after white
    space, with an opening brace or with the letter n of [null]: a closed
    connection, an empty reply, an array, a string, a number, [true],
    [false] or any other text makes the call fail and leaves the counter as
    it was. *)
Theorem Send_needs_object_reply :
  forall (b : Bulb) (method : Method) (args : list value),
    starts_like_response (incoming (conn b)) = false ->
    fst (Send b method args) <> None /\
    cmdID (snd (Send b method args)) = cmdID b.
Proof.
  intros b method args Hs.
  destruct (Send b method args) as [e b'] eqn:HS. cbn [fst snd].
  destruct e as [e|].
  - split; [discriminate|]. now apply Send_error_counter in HS.
  - exfalso. apply Send_ok_starts in HS. congruence.
Qed.

Lemma Send_needs_object_reply_witness :
  fst (Send {| cmdID := 9; conn := connection ["[" ++ QUOTE ++ "ok" ++ QUOTE ++ "]"] |}
         MethodToggle []) <> None /\
  cmdID (snd (Send {| cmdID := 9;
                      conn := connection ["[" ++ QUOTE ++ "ok" ++ QUOTE ++ "]"] |}
                MethodToggle [])) = 9.
Proof.
  apply Send_needs_object_reply. vm_compute. reflexivity.
Defined.

(* ================================================================= *)
(** ** Replies that share a read *)

Lemma skipn_length_lt {A : Type} (k : nat) (l : list A) :
  l <> [] -> (1 <= k)%nat -> (List.length (skipn k l) < List.length l)%nat.
Proof.
  intros Hl Hk. rewrite length_skipn.
  destruct l as [|x l]; [congruence|]. cbn [List.length]. lia.
Qed.

(** A call of [Send] that returns nil has used up at least one whole read:
    the decoder is made anew for each call and what it had read past the
    reply goes with it.  So when all that the peer sends arrives in one
    read, replies to later commands included, only one call can return
    nil. *)
Theorem Send_uses_up_a_read :
  forall (b : Bulb) (method : Method) (args : list value),
    fst (Send b method args) = None ->
    (List.length (net.reads (conn (snd (Send b method args))))
     < List.length (net.reads (conn b)))%nat /\
    ((List.length (net.reads (conn b)) <= 1)%nat ->
     forall (method2 : Method) (args2 : list value),
       fst (Send (snd (Send b method args)) method2 args2) <> None).
Proof.
  intros b method args H.
  assert (Hlt : (List.length (net.reads (conn (snd (Send b method args))))
                 < List.length (net.reads (conn b)))%nat).
  { destruct (Send b method args) as [e b'] eqn:HS. cbn [fst snd] in *. subst e.
    apply Send_outcome_of in HS.
    inversion HS as [| | | | text resp c1 c2 c3 HM H1 H2 H3 He Hb]. cbn [conn].
    apply Write_effect in H1. destruct H1 as [HR1 _].
    apply Write_effect in H2. destruct H2 as [HR2 _].
    pose proof (Decode_starts _ _ _ H3) as Hst.
    apply Decode_consumes in H3. destruct H3 as (k & Hk & Hk1).
    rewrite <- HR1, <- HR2, Hk.
    assert (Hne : net.reads c2 <> []).
    { intros Hnil. unfold incoming in Hst. rewrite Hnil in Hst. discriminate Hst. }
    apply skipn_length_lt; auto. }
  split; [exact Hlt|].
  intros Hone method2 args2.
  destruct (Send (snd (Send b method args)) method2 args2) as [e b2] eqn:H2.
  destruct e as [e|]; [discriminate|]. exfalso.
  apply Send_ok_starts in H2. unfold incoming in H2.
  destruct (net.reads (conn (snd (Send b method args)))) as [|r rs];
    [discriminate H2 | simpl in Hlt; lia].
Qed.

Lemma Send_uses_up_a_read_witness :
  fst (Send {| cmdID := 0; conn := connection [reply_ok "0" ++ reply_ok "1"] |}
         MethodToggle []) = None /\
  fst (Send (snd (Send {| cmdID := 0;
                          conn := connection [reply_ok "0" ++ reply_ok "1"] |}
                    MethodToggle []))
         MethodToggle []) <> None.
Proof.
  pose (b := {| cmdID := 0; conn := connection [reply_ok "0" ++ reply_ok "1"] |}).
  assert (H : fst (Send b MethodToggle []) = None) by (vm_compute; reflexivity).
  destruct (Send_uses_up_a_read b MethodToggle [] H) as [_ Hnext].
  split; [exact H|].
  apply Hnext. simpl. lia.
Defined.

(* ================================================================= *)
(** ** A call without arguments *)

Lemma Marshal_no_params (id : Z) (method : Method) :
  json_command.Marshal (command_of id (method, []))
  = Ok (no_params_text id method).
Proof.
  unfold json_command.Marshal, command_of, no_params_text.
  cbn [command_Params snd variadic jsonenc.encodeSlice].
  unfold json_command.members.
  cbn [command_ID command_Method fst Method_String].
  f_equal. rewrite !append_assoc. reflexivity.
Qed.

(** A call of [Send] without arguments writes [null] for [params], not an
    empty array: the variadic parameter is then a nil slice. *)
Theorem Send_without_arguments_sends_null :
  forall (b : Bulb) (method : Method),
    fst (Send b method []) = None ->
    net.wire (conn (snd (Send b method [])))
    = net.wire (conn b) ++ no_params_text (cmdID b) method ++ LF ++ CRLF.
Proof.
  intros b method H.
  destruct (Send b method []) as [e b'] eqn:HS.
  simpl in H. subst e. apply Send_ok_frame in HS.
  destruct HS as (text & HM & HW & _).
  rewrite Marshal_no_params in HM.
  assert (Ht : text = no_params_text (cmdID b) method) by congruence.
  now rewrite <- Ht.
Qed.

Lemma Send_without_arguments_sends_null_witness :
  net.wire (conn (snd (Send {| cmdID := 0; conn := connection [reply_ok "0"] |}
                         MethodToggle [])))
  = no_params_text 0 MethodToggle ++ LF ++ CRLF.
Proof.
  apply (Send_without_arguments_sends_null
           {| cmdID := 0; conn := connection [reply_ok "0"] |} MethodToggle).
  vm_compute. reflexivity.
Defined.

(* ================================================================= *)
(** ** The JSON text is well formed *)

Lemma length_append (a s : string) :
  String.length (a ++ s) = (String.length a + String.length s)%nat.
Proof.
  induction a as [|c a IH]; [reflexivity|]. simpl. now rewrite IH.
Qed.

Lemma feed_app (a : string) :
  forall (s s1 : scanner.t) (b : string),
    feed s a = Some s1 -> feed s (a ++ b) = feed s1 b.
Proof.
  induction a as [|c a IH]; intros s s1 b H.
  - simpl in H. now inversion H.
  - change (String c a ++ b) with (String c (a ++ b)).
    cbn [feed] in *.
    destruct (scanner.run s c) as [op s'].
    destruct op; try discriminate H; try (now apply IH);
      destruct (scanner.stateEndValue s' " ") as [op2 s2];
      destruct op2; try discriminate H; now apply IH.
Qed.

Lemma scanBuf_feed (a : string) :
  forall (s s1 : scanner.t) (b : string) (scanp : nat),
    feed s a = Some s1 ->
    stream.scanBuf s (a ++ b) scanp = stream.scanBuf s1 b (scanp + String.length a).
Proof.
  induction a as [|c a IH]; intros s s1 b scanp H.
  - simpl in H. inversion H. simpl. now rewrite Nat.add_0_r.
  - change (String c a ++ b) with (String c (a ++ b)).
    cbn [feed stream.scanBuf String.length] in *.
    rewrite <- Nat.add_succ_comm.
    destruct (scanner.run s c) as [op s'].
    destruct op; try discriminate H; try (now apply IH);
      destruct (scanner.stateEndValue s' " ") as [op2 s2];
      destruct op2; try discriminate H; now apply IH.
Qed.

Lemma feed_plain (stack : list scanner.parse_state) (s : string) :
  all_bytes plain s = true ->
  feed (scanning scanner.SInString stack) s = Some (scanning scanner.SInString stack).
Proof.
  induction s as [|c s IH]; intros H; [reflexivity|].
  simpl in H. apply andb_prop in H. destruct H as [Hc Hs].
  unfold plain in Hc. apply andb_prop in Hc. destruct Hc as [Hc H20].
  apply andb_prop in Hc. destruct Hc as [Hq Hb].
  apply negb_true_iff in Hq, Hb. apply N.leb_le in H20.
  cbn [feed]. unfold scanner.run. cbn [scanner.step scanning].
  unfold scanner.stateInString. rewrite Hq, Hb.
  assert (H20' : (N_of_ascii c <? 32)%N = false) by (apply N.ltb_ge; exact H20).
  rewrite H20'. now apply IH.
Qed.

Lemma hexdigit_shape (n : N) :
  (n < 16)%N ->
  exists c, jsonenc.hexdigit n = String c "" /\ scanner.isHex c = true.
Proof.
  intros H. unfold jsonenc.hexdigit.
  assert (Hk : (N.to_nat n < 16)%nat) by lia.
  destruct (N.to_nat n) as [|k]; [eexists; split; reflexivity|].
  do 15 (destruct k as [|k]; [eexists; split; reflexivity|]).
  lia.
Qed.

Lemma feed_hex (stack : list scanner.parse_state) (st next : scanner.state)
    (n : N) (rest : string) :
  (n < 16)%N ->
  scanner.run (scanning st stack) = scanner.stateInStringHex next (scanning st stack) ->
  feed (scanning st stack) (jsonenc.hexdigit n ++ rest)
  = feed (scanning next stack) rest.
Proof.
  intros Hn Hrun. destruct (hexdigit_shape n Hn) as (c & -> & Hc).
  change (String c "" ++ rest) with (String c rest).
  cbn [feed]. rewrite Hrun. unfold scanner.stateInStringHex. now rewrite Hc.
Qed.

Lemma high_plain (c : ascii) : high c = true -> plain c = true.
Proof.
  unfold high, plain. intros H. apply N.leb_le in H.
  assert (Hq : Ascii.eqb c (byte_of 34) = false).
  { apply Ascii.eqb_neq. intros ->. vm_compute in H. now apply H. }
  assert (Hb : Ascii.eqb c (byte_of 92) = false).
  { apply Ascii.eqb_neq. intros ->. vm_compute in H. now apply H. }
  rewrite Hq, Hb. cbn [negb andb]. apply N.leb_le. lia.
Qed.

Lemma feed_escape (stack : list scanner.parse_state) (c : ascii) (rest : string) :
  (N_of_ascii c < 0x80)%N ->
  feed (scanning scanner.SInString stack) (jsonenc.escape (N_of_ascii c) ++ rest)
  = feed (scanning scanner.SInString stack) rest.
Proof.
  intros Hlow. unfold jsonenc.escape.
  rewrite append_assoc.
  change (BACKSLASH ++ ?x) with (String (byte_of 92) x).
  cbn [feed]. 
  change (scanner.run (scanning scanner.SInString stack) (byte_of 92))
    with (scanner.scanContinue, scanning scanner.SInStringEsc stack).
  cbv iota.
  destruct ((N_of_ascii c =? 0x5C)%N || (N_of_ascii c =? 0x22)%N) eqn:Hq.
  - unfold byte_of at 1. rewrite ascii_N_embedding.
    change (String c "" ++ rest) with (String c rest). cbn [feed].
    apply orb_prop in Hq.
    destruct Hq as [Hq|Hq]; apply N.eqb_eq in Hq;
      apply (f_equal ascii_of_N) in Hq; rewrite ascii_N_embedding in Hq;
      subst c; reflexivity.
  - repeat match goal with
           | |- context [if ?x then _ else _] => destruct x; [reflexivity|]
           end.
    rewrite !append_assoc.
    change ("u00" ++ ?x) with (String "u" (String "0" (String "0" x))).
    cbn [feed].
    change (scanner.run (scanning scanner.SInStringEsc stack) "u")
      with (scanner.scanContinue, scanning scanner.SInStringEscU stack).
    cbv iota.
    change (scanner.run (scanning scanner.SInStringEscU stack) "0")
      with (scanner.scanContinue, scanning scanner.SInStringEscU1 stack).
    cbv iota.
    change (scanner.run (scanning scanner.SInStringEscU1 stack) "0")
      with (scanner.scanContinue, scanning scanner.SInStringEscU12 stack).
    cbv iota.
    rewrite (feed_hex stack scanner.SInStringEscU12 scanner.SInStringEscU123);
      [|rewrite N.shiftr_div_pow2; apply N.Div0.div_lt_upper_bound; simpl; lia
       |reflexivity].
    rewrite (feed_hex stack scanner.SInStringEscU123 scanner.SInString);
      [reflexivity| |reflexivity].
    change 15%N with (N.ones 4). rewrite N.land_ones.
    apply N.mod_lt. discriminate.
Qed.

Lemma feed_app2 (a b x : string) (s s1 : scanner.t) :
  feed s (a ++ b) = Some s1 -> feed s (a ++ b ++ x) = feed s1 x.
Proof.
  intros H. rewrite <- append_assoc. now apply feed_app.
Qed.

Lemma feed_app3 (a b c x : string) (s s1 : scanner.t) :
  feed s (a ++ b ++ c) = Some s1 -> feed s (a ++ b ++ c ++ x) = feed s1 x.
Proof.
  intros H.
  replace (a ++ b ++ c ++ x) with ((a ++ b ++ c) ++ x)
    by (now rewrite !append_assoc).
  now apply feed_app.
Qed.

Lemma feed_appendString_loop (stack : list scanner.parse_state) (fuel : nat) :
  forall (src rest : string),
    feed (scanning scanner.SInString stack) (jsonenc.appendString_loop fuel src ++ rest)
    = feed (scanning scanner.SInString stack) rest.
Proof.
  induction fuel as [|fuel IH]; intros src rest; [reflexivity|].
  destruct src as [|c src']; [reflexivity|].
  cbn [jsonenc.appendString_loop].
  destruct (N_of_ascii c <? utf8.RuneSelf)%N eqn:Hlow.
  - apply N.ltb_lt in Hlow. unfold utf8.RuneSelf in Hlow.
    destruct (jsonenc.htmlSafe (N_of_ascii c)) eqn:Hsafe.
    + change (String c ?x ++ rest) with (String c "" ++ x ++ rest).
      rewrite (feed_app (String c "") _ (scanning scanner.SInString stack)).
      * apply IH.
      * apply feed_plain. simpl. rewrite andb_true_r.
        unfold jsonenc.htmlSafe in Hsafe. unfold plain.
        repeat (apply andb_prop in Hsafe; destruct Hsafe as [Hsafe ?]).
        assert (Hq : Ascii.eqb c (byte_of 34) = false).
        { apply Ascii.eqb_neq. intros ->. discriminate. }
        assert (Hb : Ascii.eqb c (byte_of 92) = false).
        { apply Ascii.eqb_neq. intros ->. discriminate. }
        now rewrite Hq, Hb, Hsafe.
    + rewrite append_assoc, feed_escape by exact Hlow. apply IH.
  - destruct (utf8.DecodeRune (String c src')) as [r size] eqn:HD.
    destruct ((r =? utf8.RuneError)%N && (size =? 1)%nat).
    + rewrite !append_assoc.
      rewrite (feed_app2 BACKSLASH "ufffd" _ _ (scanning scanner.SInString stack))
        by reflexivity.
      apply IH.
    + destruct ((r =? 0x2028)%N || (r =? 0x2029)%N) eqn:Hr.
      * assert (Hd : jsonenc.hexdigit (N.land r 15) = "8"
                     \/ jsonenc.hexdigit (N.land r 15) = "9").
        { apply orb_prop in Hr.
          destruct Hr as [Hr|Hr]; apply N.eqb_eq in Hr; subst r; auto. }
        rewrite !append_assoc.
        destruct Hd as [-> | ->].
        -- rewrite (feed_app3 BACKSLASH "u202" "8" _ _
                      (scanning scanner.SInString stack)) by reflexivity.
           apply IH.
        -- rewrite (feed_app3 BACKSLASH "u202" "9" _ _
                      (scanning scanner.SInString stack)) by reflexivity.
           apply IH.
      * rewrite append_assoc.
        rewrite (feed_app (take size (String c src')) _
                   (scanning scanner.SInString stack)).
        -- apply IH.
        -- apply feed_plain.
           apply (all_bytes_impl high plain _ high_plain).
           now apply DecodeRune_take_high with r.
Qed.

Lemma run_quote (stack : list scanner.parse_state) (st : scanner.state) :
  before_value st ->
  scanner.run (scanning st stack) (byte_of 34)
  = (scanner.scanBeginLiteral, scanning scanner.SInString stack).
Proof.
  intros [-> | ->]; reflexivity.
Qed.

Lemma feed_appendString (stack : list scanner.parse_state) (st : scanner.state)
    (s rest : string) :
  before_value st ->
  feed (scanning st stack) (jsonenc.appendString s ++ rest)
  = feed (scanning scanner.SEndValue stack) rest.
Proof.
  intros Hst. unfold jsonenc.appendString.
  change (QUOTE ++ ?x) with (String (byte_of 34) x).
  change (String (byte_of 34) ?x ++ rest) with (String (byte_of 34) (x ++ rest)).
  cbn [feed]. rewrite (run_quote stack st Hst). cbv iota.
  rewrite append_assoc, feed_appendString_loop.
  reflexivity.
Qed.

Lemma nzhead_starts (d : Decimal.uint) :
  Decimal.nzhead d <> Decimal.Nil -> starts_nonzero (Decimal.nzhead d) = true.
Proof.
  induction d; simpl; intros H; try reflexivity; [congruence | now apply IHd].
Qed.

Lemma to_uint_starts (p : positive) : starts_nonzero (Pos.to_uint p) = true.
Proof.
  pose proof (DecimalPos.Unsigned.to_of (Pos.to_uint p)) as H.
  rewrite DecimalPos.Unsigned.of_to in H. cbn [N.to_uint] in H.
  assert (Hnz : Decimal.nzhead (Pos.to_uint p) <> Decimal.Nil).
  { intros Hnil. apply DecimalFacts.unorm_0 in Hnil. rewrite <- H in Hnil.
    now apply (DecimalPos.Unsigned.to_uint_nonzero p). }
  rewrite H, (DecimalFacts.unorm_nzhead _ Hnz). now apply nzhead_starts.
Qed.

Lemma feed_digits (stack : list scanner.parse_state) (d : Decimal.uint) (rest : string) :
  feed (scanning scanner.S1 stack) (NilEmpty.string_of_uint d ++ rest)
  = feed (scanning scanner.S1 stack) rest.
Proof.
  induction d; [reflexivity | exact IHd ..].
Qed.

Lemma feed_uint (stack : list scanner.parse_state) (st : scanner.state)
    (d : Decimal.uint) (rest : string) :
  before_value st \/ st = scanner.SNeg ->
  starts_nonzero d = true ->
  feed (scanning st stack) (NilEmpty.string_of_uint d ++ rest)
  = feed (scanning scanner.S1 stack) rest.
Proof.
  intros Hst Hd.
  destruct d; try discriminate Hd;
    destruct Hst as [[-> | ->] | ->]; apply (feed_digits stack d rest).
Qed.

Lemma feed_format (stack : list scanner.parse_state) (st : scanner.state) (n : Z) :
  before_value st ->
  exists Y, after_value Y /\
    forall rest, feed (scanning st stack) (GoInt.format n ++ rest)
                 = feed (scanning Y stack) rest.
Proof.
  intros Hst. unfold GoInt.format, NilEmpty.string_of_int.
  destruct n as [|p|p]; cbn [Z.to_int].
  - exists scanner.S0. split; [right; now left|].
    intros rest. destruct Hst as [-> | ->]; reflexivity.
  - exists scanner.S1. split; [right; now right|].
    intros rest. apply feed_uint; [now left | apply to_uint_starts].
  - exists scanner.S1. split; [right; now right|].
    intros rest.
    change (String "-" ?x ++ rest) with (String "-" (x ++ rest)).
    cbn [feed].
    assert (Hrun : scanner.run (scanning st stack) "-"
                   = (scanner.scanBeginLiteral, scanning scanner.SNeg stack))
      by (destruct Hst as [-> | ->]; reflexivity).
    rewrite Hrun. cbv iota.
    apply feed_uint; [now right | apply to_uint_starts].
Qed.

Lemma feed_keyword (stack : list scanner.parse_state) (st : scanner.state)
    (rest : string) :
  before_value st ->
  feed (scanning st stack) ("true" ++ rest) = feed (scanning scanner.SEndValue stack) rest /\
  feed (scanning st stack) ("false" ++ rest) = feed (scanning scanner.SEndValue stack) rest /\
  feed (scanning st stack) ("null" ++ rest) = feed (scanning scanner.SEndValue stack) rest.
Proof.
  intros [-> | ->]; repeat split; reflexivity.
Qed.

Lemma feed_value (stack : list scanner.parse_state) (st : scanner.state)
    (v : value) (t : string) :
  jsonenc.encodeValue v = Ok t ->
  before_value st ->
  exists Y, after_value Y /\
    forall rest, feed (scanning st stack) (t ++ rest) = feed (scanning Y stack) rest.
Proof.
  intros Hv Hst.
  destruct v as [n|s|[|]| |]; cbn [jsonenc.encodeValue] in Hv;
    try discriminate Hv; inversion Hv; subst t.
  - now apply feed_format.
  - exists scanner.SEndValue. split; [now left|].
    intros rest. now apply feed_appendString.
  - exists scanner.SEndValue. split; [now left|].
    intros rest. now apply (feed_keyword stack st rest Hst).
  - exists scanner.SEndValue. split; [now left|].
    intros rest. now apply (feed_keyword stack st rest Hst).
  - exists scanner.SEndValue. split; [now left|].
    intros rest. now apply (feed_keyword stack st rest Hst).
Qed.

Lemma run_delimiter (ps : scanner.parse_state) (stack : list scanner.parse_state)
    (Y : scanner.state) (d : ascii) :
  after_value Y ->
  d = ","%char \/ d = "]"%char \/ d = "}"%char ->
  scanner.run (scanning Y (ps :: stack)) d
  = scanner.run (scanning scanner.SEndValue (ps :: stack)) d.
Proof.
  intros [-> | [-> | ->]] [-> | [-> | ->]]; destruct ps; reflexivity.
Qed.

Lemma feed_delimiter (ps : scanner.parse_state) (stack : list scanner.parse_state)
    (Y : scanner.state) (d : ascii) (rest : string) :
  after_value Y ->
  d = ","%char \/ d = "]"%char \/ d = "}"%char ->
  feed (scanning Y (ps :: stack)) (String d rest)
  = feed (scanning scanner.SEndValue (ps :: stack)) (String d rest).
Proof.
  intros HY Hd. cbn [feed]. now rewrite (run_delimiter ps stack Y d HY Hd).
Qed.

Lemma feed_elems (stack : list scanner.parse_state) (l : list value) :
  forall (ts : string) (Y : scanner.state),
    jsonenc.encodeElems false l = Ok ts ->
    after_value Y ->
    exists Y', after_value Y' /\
      forall rest,
        feed (scanning Y (scanner.parseArrayValue :: stack)) (ts ++ rest)
        = feed (scanning Y' (scanner.parseArrayValue :: stack)) rest.
Proof.
  induction l as [|v l IH]; intros ts Y H HY; cbn [jsonenc.encodeElems] in H.
  - inversion H; subst. exists Y. split; [exact HY | reflexivity].
  - destruct (jsonenc.encodeValue v) as [t|e] eqn:Hv; [|discriminate H].
    destruct (jsonenc.encodeElems false l) as [ts'|e] eqn:Hl; [|discriminate H].
    assert (Hts : ts = "," ++ t ++ ts') by congruence. subst ts.
    destruct (feed_value (scanner.parseArrayValue :: stack) scanner.SBeginValue
                v t Hv (or_introl eq_refl)) as (Y1 & HY1 & Hf1).
    destruct (IH ts' Y1 eq_refl HY1) as (Y' & HY' & Hf').
    exists Y'. split; [exact HY'|]. intros rest.
    change (("," ++ t ++ ts') ++ rest) with (String "," ((t ++ ts') ++ rest)).
    rewrite (feed_delimiter _ _ Y "," _ HY) by auto.
    cbn [feed].
    change (scanner.run (scanning scanner.SEndValue (scanner.parseArrayValue :: stack)) ",")
      with (scanner.scanArrayValue,
            scanning scanner.SBeginValue (scanner.parseArrayValue :: stack)).
    cbv iota. rewrite append_assoc, Hf1. apply Hf'.
Qed.

Lemma feed_params (args : list value) (params : string) :
  jsonenc.encodeSlice (variadic args) = Ok params ->
  exists Y, after_value Y /\
    forall rest,
      feed (scanning scanner.SBeginValue [scanner.parseObjectValue]) (params ++ rest)
      = feed (scanning Y [scanner.parseObjectValue]) rest.
Proof.
  destruct args as [|v l]; cbn [variadic jsonenc.encodeSlice jsonenc.encodeElems];
    intros H.
  - inversion H; subst. exists scanner.SEndValue. split; [now left|].
    intros rest.
    now apply (feed_keyword [scanner.parseObjectValue] scanner.SBeginValue rest
                 (or_introl eq_refl)).
  - destruct (jsonenc.encodeValue v) as [t|e] eqn:Hv; [|discriminate H].
    destruct (jsonenc.encodeElems false l) as [ts|e] eqn:Hl; [|discriminate H].
    assert (Hp : params = "[" ++ (t ++ ts) ++ "]") by (inversion H; reflexivity).
    subst params.
    destruct (feed_value [scanner.parseArrayValue; scanner.parseObjectValue]
                scanner.SBeginValueOrEmpty v t Hv (or_intror eq_refl))
      as (Y1 & HY1 & Hf1).
    destruct (feed_elems [scanner.parseObjectValue] l ts Y1 Hl HY1)
      as (Y2 & HY2 & Hf2).
    exists scanner.SEndValue. split; [now left|]. intros rest.
    change (("[" ++ (t ++ ts) ++ "]") ++ rest)
      with (String "[" (((t ++ ts) ++ "]") ++ rest)).
    cbn [feed].
    change (scanner.run (scanning scanner.SBeginValue [scanner.parseObjectValue]) "[")
      with (scanner.scanBeginArray,
            scanning scanner.SBeginValueOrEmpty
              [scanner.parseArrayValue; scanner.parseObjectValue]).
    cbv iota. rewrite !append_assoc, Hf1, Hf2.
    change ("]" ++ rest) with (String "]" rest).
    rewrite (feed_delimiter _ _ Y2 "]" _ HY2) by auto.
    reflexivity.
Qed.

Lemma scanBuf_closing_brace (Y : scanner.state) (trailing : string) (scanp : nat) :
  after_value Y ->
  stream.scanBuf (scanning Y [scanner.parseObjectValue]) (String "}" trailing) scanp
  = stream.ValueEnd (S scanp).
Proof.
  intros [-> | [-> | ->]]; reflexivity.
Qed.

(** The JSON text [Send] writes for a command is, for the scanner of
    [encoding/json] itself, one complete JSON value that ends at its last
    brace, whatever the counter, the bytes of the method string and the
    arguments, and whatever follows it on the wire: every request is
    well-formed JSON. *)
Theorem command_text_is_one_json_value :
  forall (id : Z) (c : call) (text trailing : string),
    json_command.Marshal (command_of id c) = Ok text ->
    stream.scanBuf scanner.reset (text ++ trailing) 0
    = stream.ValueEnd (String.length text).
Proof.
  intros id [method args] text trailing H.
  unfold json_command.Marshal, command_of in H.
  cbn [command_Params snd] in H.
  destruct (jsonenc.encodeSlice (variadic args)) as [params|e] eqn:Hp;
    [|discriminate H].
  unfold json_command.members in H.
  cbn [command_ID command_Method fst Method_String] in H.
  destruct (feed_format [scanner.parseObjectValue] scanner.SBeginValue id
              (or_introl eq_refl)) as (Y1 & HY1 & Hf1).
  destruct (feed_params args params Hp) as (Y2 & HY2 & Hf2).
  set (A1 := "{" ++ QUOTE ++ "id" ++ QUOTE ++ ":").
  set (A2 := "," ++ QUOTE ++ "method" ++ QUOTE ++ ":").
  set (A3 := "," ++ QUOTE ++ "params" ++ QUOTE ++ ":").
  set (body := A1 ++ GoInt.format id ++ A2 ++ jsonenc.appendString method
               ++ A3 ++ params ++ "").
  assert (Ht : text = body ++ "}").
  { assert (Ht : Ok text
                 = Ok (A1 ++ GoInt.format id ++ A2 ++ jsonenc.appendString method
                          ++ A3 ++ params ++ "}")).
    { rewrite <- H. f_equal. unfold A1, A2, A3. rewrite !append_assoc. reflexivity. }
    assert (Ht' : text = A1 ++ GoInt.format id ++ A2 ++ jsonenc.appendString method
                            ++ A3 ++ params ++ "}") by congruence.
    rewrite Ht'. unfold body. rewrite !append_assoc. reflexivity. }
  assert (Hfeed : feed scanner.reset body = Some (scanning Y2 [scanner.parseObjectValue])).
  { unfold body.
    rewrite (feed_app A1 scanner.reset
               (scanning scanner.SBeginValue [scanner.parseObjectValue]))
      by reflexivity.
    rewrite Hf1.
    change (A2 ++ ?x) with (String "," ((QUOTE ++ "method" ++ QUOTE ++ ":") ++ x)).
    rewrite (feed_delimiter _ _ Y1 "," _ HY1) by auto.
    change (String "," ((QUOTE ++ "method" ++ QUOTE ++ ":") ++ ?x)) with (A2 ++ x).
    rewrite (feed_app A2 (scanning scanner.SEndValue [scanner.parseObjectValue])
               (scanning scanner.SBeginValue [scanner.parseObjectValue]))
      by reflexivity.
    rewrite (feed_appendString [scanner.parseObjectValue] scanner.SBeginValue)
      by (now left).
    rewrite (feed_app A3 (scanning scanner.SEndValue [scanner.parseObjectValue])
               (scanning scanner.SBeginValue [scanner.parseObjectValue]))
      by reflexivity.
    rewrite Hf2. reflexivity. }
  rewrite Ht, append_assoc.
  rewrite (scanBuf_feed body _ _ _ 0 Hfeed).
  change ("}" ++ trailing) with (String "}" trailing).
  rewrite (scanBuf_closing_brace Y2 _ _ HY2).
  rewrite length_append. cbn [String.length Nat.add]. f_equal. lia.
Qed.

Lemma command_text_is_one_json_value_witness :
  exists text,
    json_command.Marshal
      (command_of (-7) (String (byte_of 200) (QUOTE ++ "x" ++ BACKSLASH),
                        [VStr LF; VInt 0; VBool false; VNil; VInt (-12)]))
    = Ok text /\
    stream.scanBuf scanner.reset (text ++ LF ++ CRLF) 0
    = stream.ValueEnd (String.length text).
Proof.
  destruct (json_command.Marshal
              (command_of (-7) (String (byte_of 200) (QUOTE ++ "x" ++ BACKSLASH),
                                [VStr LF; VInt 0; VBool false; VNil; VInt (-12)])))
    as [text|e] eqn:HM; [|vm_compute in HM; discriminate HM].
  exists text. split; [reflexivity|].
  exact (command_text_is_one_json_value _ _ text (LF ++ CRLF) HM).
Defined.
